(** * Todo console app: task entity, JSON storage handler and task manager

    A shallow embedding of [src/todo_manager.py] and [src/storage.py],
    together with the [Task] entity of [models.py] they import and the
    handler of [src/main.py] that adds a task.

    Conventions of the embedding:
    - a Python [str] is a [string], its characters the code points below
      256; [len] is [String.length];
    - a Python [int] is a [Z], except the calendar fields of a [datetime],
      which are naturals ([N]);
    - a raised exception is the [Raise] case of [result]; a [try/except
      Exception] is a [match] on it;
    - objects are values: the manager never stores one [Task] object at two
      positions of its list ([add_task], [update_task] and [load] each build
      a fresh object), so the in-place assignment of [toggle_complete] is a
      replacement at the position of the object;
    - what the environment decides (the clock, I/O failures) is an explicit
      argument of the operation it influences. *)

From stdpp Require Import base numbers option list strings pretty gmap.
From Stdlib Require Import ZArith NArith Ascii Lia.

Open Scope string_scope.

(** ** Python values and built-ins *)

Module py.

(** Exceptions the modelled code can raise. [ValidationError] is the
    [ValueError] of a violated [Task] constraint; it names the constraint. *)
Inductive constraint := TitleNotEmpty | TitleAtMost200 | DescriptionAtMost1000.

Inductive exception :=
| ValidationError (c : constraint)
| ValueError
| KeyError (key : string)
| TypeError
| AttributeError
| ImportError
| OSError.

Inductive result (A : Type) :=
| Ok (a : A)
| Raise (e : exception).
Arguments Ok {A} a.
Arguments Raise {A} e.

#[global] Instance result_ret : MRet result := @Ok.
#[global] Instance result_bind : MBind result := λ A B f r,
  match r with
  | Ok a => f a
  | Raise e => Raise e
  end.

#[global] Instance result_fmap : FMap result := λ A B f r,
  match r with
  | Ok a => Ok (f a)
  | Raise e => Raise e
  end.

(** A computation that reads and writes a state [S] and may raise: the
    state at the point of the [raise] is kept, as Python keeps it. *)
Definition M (S A : Type) : Type := S → result A * S.

#[global] Instance M_ret {S} : MRet (M S) := λ A a s, (Ok a, s).
#[global] Instance M_bind {S} : MBind (M S) := λ A B f m s,
  match m s with
  | (Ok a, s') => f a s'
  | (Raise e, s') => (Raise e, s')
  end.

#[global] Instance M_fmap {S} : FMap (M S) := λ A B f m s,
  match m s with
  | (r, s') => (f <$> r, s')
  end.

Definition lift {S A} (r : result A) : M S A := λ s, (r, s).
Definition gets {S A} (f : S → A) : M S A := λ s, (Ok (f s), s).
Definition modify {S} (f : S → S) : M S unit := λ s, (Ok (), f s).

(** [try: body  except Exception as e: handler e] *)
Definition try_except {S A} (body : M S A) (handler : exception → M S A) : M S A := λ s,
  match body s with
  | (Ok a, s') => (Ok a, s')
  | (Raise e, s') => handler e s'
  end.

(** [str.isspace] of one character (code points below 256). *)
Definition isspace (c : ascii) : bool :=
  let n := N_of_ascii c in
  ((9 <=? n) && (n <=? 13) || (28 <=? n) && (n <=? 32) || (n =? 133) || (n =? 160))%N.

Fixpoint lstrip (s : string) : string :=
  match s with
  | String c s' => if isspace c then lstrip s' else s
  | EmptyString => EmptyString
  end.

Definition rstrip (s : string) : string := String.rev (lstrip (String.rev s)).

(** [s.strip()] *)
Definition strip (s : string) : string := rstrip (lstrip s).

(** [s * n] *)
Fixpoint str_mul (s : string) (n : nat) : string :=
  match n with
  | O => ""
  | S k => s +:+ str_mul s k
  end.

(** [s[:n]] and [s[n:]] for [0 <= n] *)
Fixpoint str_take (n : nat) (s : string) : string :=
  match n, s with
  | S k, String c s' => String c (str_take k s')
  | _, _ => ""
  end.

Fixpoint str_drop (n : nat) (s : string) : string :=
  match n, s with
  | S k, String _ s' => str_drop k s'
  | _, _ => s
  end.

(** [s.rfind(c)]: the highest index of [c], [None] for Python's [-1]. *)
Fixpoint rfind (c : ascii) (s : string) : option nat :=
  match s with
  | EmptyString => None
  | String a s' =>
      match rfind c s' with
      | Some i => Some (S i)
      | None => if decide (a = c) then Some O else None
      end
  end.

(** The values [json.load] produces and [json.dump] consumes. A [dict]
    keeps its insertion order, as Python's does. *)
#[warnings="-register-all"]
Inductive pyval :=
| PyNone
| PyBool (b : bool)
| PyInt (z : Z)
| PyFloat (repr : string)
| PyStr (s : string)
| PyList (l : list pyval)
| PyDict (d : list (string * pyval)).

(** [d.get(key)], [None] when the key is absent. *)
Fixpoint dict_lookup (d : list (string * pyval)) (key : string) : option pyval :=
  match d with
  | [] => None
  | (k, v) :: d' => if decide (k = key) then Some v else dict_lookup d' key
  end.

(** [d.get(key, dflt)] *)
Definition dict_get (d : list (string * pyval)) (key : string) (dflt : pyval) : pyval :=
  default dflt (dict_lookup d key).

(** [d[key]] *)
Definition dict_getitem (d : list (string * pyval)) (key : string) : result pyval :=
  match dict_lookup d key with
  | Some v => Ok v
  | None => Raise (KeyError key)
  end.

(** [v.get(key, dflt)] on an arbitrary value: only a [dict] has [get]. *)
Definition get (v : pyval) (key : string) (dflt : pyval) : result pyval :=
  match v with
  | PyDict d => Ok (dict_get d key dflt)
  | _ => Raise AttributeError
  end.

Fixpoint chars (s : string) : list pyval :=
  match s with
  | EmptyString => []
  | String c s' => PyStr (String c EmptyString) :: chars s'
  end.

(** [for x in v]: the elements of a list, the keys of a dict, the
    characters of a string; other values are not iterable. *)
Definition iter (v : pyval) : result (list pyval) :=
  match v with
  | PyList l => Ok l
  | PyDict d => Ok (map (λ kv, PyStr (fst kv)) d)
  | PyStr s => Ok (chars s)
  | _ => Raise TypeError
  end.

(** [[f(x) for x in l]], stopping at the first exception. *)
Fixpoint comprehension {A B : Type} (f : A → result B) (l : list A) : result (list B) :=
  match l with
  | [] => Ok []
  | x :: l' => y ← f x; ys ← comprehension f l'; mret (y :: ys)
  end.

End py.

(** ** [pathlib]: the part [storage.py] uses *)

Module pathlib.
Import py.

(** A path as [pathlib] holds it after parsing: the components before the
    last one, and the last one ([name], empty for a path such as ["."] or
    ["/"] that has none). *)
Record Path := { parent : list string; name : string }.

(** The key of the file in the file system. *)
Definition parts (p : Path) : list string := parent p ++ [name p].

(** [p.suffix]: from the last dot of the name on, unless that dot is the
    first or the last character. *)
Definition suffix (p : Path) : string :=
  match rfind "." (name p) with
  | Some i =>
      if decide (0 < i < String.length (name p) - 1) then str_drop i (name p) else ""
  | None => ""
  end.

(** [p.with_suffix(sfx)] for a well-formed [sfx] (the only caller passes
    the constant ['.json.backup']); [ValueError] on an empty name. *)
Definition with_suffix (p : Path) (sfx : string) : result Path :=
  if decide (name p = "") then Raise ValueError
  else
    let old_suffix := suffix p in
    Ok {| parent := parent p;
          name := if decide (old_suffix = "") then name p +:+ sfx
                  else str_take (String.length (name p) - String.length old_suffix) (name p)
                       +:+ sfx |}.

End pathlib.

(** ** [models.py]: the [Task] entity *)

Module models.
Import py.

(** A naive [datetime.datetime], as [datetime.now()] returns. *)
Record datetime := {
  year : N; month : N; day : N;
  hour : N; minute : N; second : N; microsecond : N
}.

Definition is_leap (y : N) : bool :=
  ((y mod 4 =? 0) && negb (y mod 100 =? 0) || (y mod 400 =? 0))%N.

Definition days_in_month (y m : N) : N :=
  if (m =? 2)%N then (if is_leap y then 29 else 28)%N
  else if ((m =? 4) || (m =? 6) || (m =? 9) || (m =? 11))%N then 30%N
  else 31%N.

(** The ranges the [datetime] constructor enforces. *)
Definition datetime_ok (d : datetime) : bool :=
  ((1 <=? year d) && (year d <=? 9999) &&
   (1 <=? month d) && (month d <=? 12) &&
   (1 <=? day d) && (day d <=? days_in_month (year d) (month d)) &&
   (hour d <? 24) && (minute d <? 60) && (second d <? 60) &&
   (microsecond d <? 1000000))%N.

Definition digit (n : N) : ascii := ascii_of_N (48 + n mod 10).

(** [n] in decimal on exactly [w] digits, zero padded (['%0wd' % n]). *)
Fixpoint zfill (w : nat) (n : N) : string :=
  match w with
  | O => ""
  | S w' => String (digit (n / 10 ^ N.of_nat w')) (zfill w' n)
  end.

(** [d.isoformat()]: [YYYY-MM-DDTHH:MM:SS], followed by [.ffffff] when the
    microsecond is not zero. *)
Definition isoformat (d : datetime) : string :=
  zfill 4 (year d) +:+ "-" +:+ zfill 2 (month d) +:+ "-" +:+ zfill 2 (day d) +:+ "T"
  +:+ zfill 2 (hour d) +:+ ":" +:+ zfill 2 (minute d) +:+ ":" +:+ zfill 2 (second d)
  +:+ (if decide (microsecond d = 0%N) then "" else "." +:+ zfill 6 (microsecond d)).

Definition digit_value (c : ascii) : option N :=
  let n := N_of_ascii c in
  if ((48 <=? n) && (n <=? 57))%N then Some (n - 48)%N else None.

(** Reads exactly [w] decimal digits off the front of [s]. *)
Fixpoint read_digits (w : nat) (acc : N) (s : string) : option (N * string) :=
  match w with
  | O => Some (acc, s)
  | S w' =>
      match s with
      | String c s' => v ← digit_value c; read_digits w' (acc * 10 + v)%N s'
      | EmptyString => None
      end
  end.

Definition read_char (c : ascii) (s : string) : option string :=
  match s with
  | String a s' => if decide (a = c) then Some s' else None
  | EmptyString => None
  end.

Definition read_fraction (s : string) : option (N * string) :=
  match s with
  | EmptyString => Some (0%N, "")
  | _ => s ← read_char "." s; read_digits 6 0%N s
  end.

Definition parse_isoformat (s : string) : option datetime :=
  '(y, s) ← read_digits 4 0%N s; s ← read_char "-" s;
  '(mo, s) ← read_digits 2 0%N s; s ← read_char "-" s;
  '(d, s) ← read_digits 2 0%N s; s ← read_char "T" s;
  '(h, s) ← read_digits 2 0%N s; s ← read_char ":" s;
  '(mi, s) ← read_digits 2 0%N s; s ← read_char ":" s;
  '(sec, s) ← read_digits 2 0%N s;
  '(us, s) ← read_fraction s;
  if decide (s = "") then
    Some {| year := y; month := mo; day := d;
            hour := h; minute := mi; second := sec; microsecond := us |}
  else None.

(** [datetime.fromisoformat(s)] on the two layouts [isoformat] emits, and
    [ValueError] on a field out of range. Python's parser reads more
    layouts (a date alone, another separator, a short fraction, an
    offset); they are outside this model, which gives [ValueError] there,
    and no property below rests on that answer. *)
Definition fromisoformat (s : string) : result datetime :=
  match parse_isoformat s with
  | Some d => if datetime_ok d then Ok d else Raise ValueError
  | None => Raise ValueError
  end.

Record Task := {
  id : Z;
  title : string;
  description : string;
  completed : bool;
  created_at : datetime
}.

(** Modelled from the spec: the constructor of [Task] ([models.py] is not
    among the sources). Sections 3 and 4.3 of the specification give the
    constraints: a title that is not empty once stripped, a title of at
    most 200 characters, a description of at most 1000 characters. The
    bound on the title is checked on the title as passed, which bounds the
    stripped title too; section 8 rejects every title of length 201.
    Sections 4.3 and 7 give the failure, a validation error that names the
    violated constraint. [add_task] has no check of its own and documents
    the [ValueError] it lets through, so the check sits here, where every
    construction of a [Task] runs it. *)
Definition Task_init (id : Z) (title description : string) (completed : bool)
    (created_at : datetime) : result Task :=
  if decide (strip title = "") then Raise (ValidationError TitleNotEmpty)
  else if decide (200 < String.length title) then Raise (ValidationError TitleAtMost200)
  else if decide (1000 < String.length description)
       then Raise (ValidationError DescriptionAtMost1000)
  else Ok {| id := id; title := title; description := description;
             completed := completed; created_at := created_at |}.

(** Modelled from the spec: [Task.to_dict] of [models.py], the conversion to
    a plain key-value record of section 4.1, with the keys and value types
    of section 6 (the timestamp as an ISO-8601 string). *)
Definition to_dict (t : Task) : pyval :=
  PyDict [("id", PyInt (id t));
          ("title", PyStr (title t));
          ("description", PyStr (description t));
          ("completed", PyBool (completed t));
          ("created_at", PyStr (isoformat (created_at t)))].

Definition as_int (v : pyval) : result Z :=
  match v with PyInt z => Ok z | _ => Raise TypeError end.
Definition as_str (v : pyval) : result string :=
  match v with PyStr s => Ok s | _ => Raise TypeError end.
Definition as_bool (v : pyval) : result bool :=
  match v with PyBool b => Ok b | _ => Raise TypeError end.

(** Modelled from the spec: [Task.from_dict] of [models.py], the
    reconstruction of section 4.1: [id], [title] and [created_at] are
    required, [description] defaults to the empty string and [completed]
    to false; the values have the types of section 6. *)
Definition from_dict (data : pyval) : result Task :=
  match data with
  | PyDict d =>
      id ← dict_getitem d "id" ≫= as_int;
      title ← dict_getitem d "title" ≫= as_str;
      description ← as_str (dict_get d "description" (PyStr ""));
      completed ← as_bool (dict_get d "completed" (PyBool false));
      stamp ← dict_getitem d "created_at" ≫= as_str;
      created_at ← fromisoformat stamp;
      Task_init id title description completed created_at
  | _ => Raise TypeError
  end.

End models.

(** ** [storage.py]: the JSON storage handler *)

Module storage.
Import py pathlib.

(** The file system: the content of each regular file the process can
    reach, by path. The paths the handler uses hold such a file or nothing:
    a directory or a link at the data file or at its backup is outside
    this model. *)
Abbreviation fs := (gmap (list string) string).

(** What the environment does to one [save] or [backup]. *)
Inductive write_fault :=
| NoFault
| CopyFails (left : option string)
    (** [shutil.copy] raises; [left] is what it wrote under the
        destination before, if it wrote *)
| OpenFails
    (** [open(path, 'w')] raises; the file is untouched *)
| DumpFails (written : string)
    (** [json.dump] raises after [open] truncated the file and [written]
        reached it *)
| ExistsFails.
    (** [exists()] on a path that holds no reachable file raises [OSError]
        in place of answering [False]: the name is too long, a directory
        on the way may not be searched *)

(** What the environment does to one [load]. *)
Inductive read_fault :=
| ReadOk
| ReadFails      (** [open] or the read raises *)
| ImportFails    (** [from models import Task] raises *)
| CheckFails.    (** [exists()] on a path that holds no reachable file raises *)

Record JSONStorage := { filepath : Path }.

(** The dictionary [load] returns. The counter is whatever value the file
    holds under ["next_id"]. *)
Record LoadResult := { tasks : list models.Task; next_id : pyval }.

(** [p.exists()]: [True] for a file of the disk. For a path without one it
    is [False] when the check finds nothing there and [OSError] when the
    environment refuses the check, an error [pathlib] does not swallow. *)
Definition path_exists (refused : bool) (p : Path) : M fs bool := λ d,
  match d !! parts p with
  | Some _ => (Ok true, d)
  | None => if refused then (Raise OSError, d) else (Ok false, d)
  end.

(** Whether the environment refuses the existence check of a missing file. *)
Definition write_refused (io : write_fault) : bool :=
  match io with ExistsFails => true | _ => false end.

Definition read_refused (io : read_fault) : bool :=
  match io with CheckFails => true | _ => false end.

(** [shutil.copy(src, dst)]. The destination holds a regular file or
    nothing, so the copy lands at the destination path itself, not inside
    a directory of that name and not behind a link. *)
Definition shutil_copy (io : write_fault) (src dst : Path) : M fs unit := λ d,
  match io with
  | CopyFails (Some partial) => (Raise OSError, <[parts dst := partial]> d)
  | CopyFails None => (Raise OSError, d)
  | _ =>
      match d !! parts src with
      | Some content => (Ok (), <[parts dst := content]> d)
      | None => (Raise OSError, d)
      end
  end.

Section json.
(** [json.dumps(data, indent=2, ensure_ascii=False)] and [json.loads],
    [None] for a [JSONDecodeError]. *)
Variable json_dumps : pyval → string.
Variable json_loads : string → option pyval.

(** [with open(p, 'w', encoding='utf-8') as f: json.dump(data, f, ...)] *)
Definition write_json (io : write_fault) (p : Path) (data : pyval) : M fs unit := λ d,
  match io with
  | OpenFails => (Raise OSError, d)
  | DumpFails written => (Raise OSError, <[parts p := written]> d)
  | _ => (Ok (), <[parts p := json_dumps data]> d)
  end.

(** [with open(p, 'r', encoding='utf-8') as f: data = json.load(f)] *)
Definition read_json (io : read_fault) (p : Path) : M fs pyval := λ d,
  match io, d !! parts p with
  | ReadFails, _ | _, None => (Raise OSError, d)
  | _, Some content =>
      match json_loads content with
      | Some data => (Ok data, d)
      | None => (Raise ValueError, d)
      end
  end.

Definition import_models (io : read_fault) : M fs unit :=
  match io with
  | ImportFails => lift (Raise ImportError)
  | _ => mret ()
  end.

(** [save]: the existence check, the copy and the write are all inside
    the [try]. *)
Definition save (self : JSONStorage) (io : write_fault)
    (tasks : list models.Task) (next_id : Z) : M fs bool :=
  try_except
    (file_exists ← path_exists (write_refused io) (filepath self);
     (if file_exists : bool then
        backup_path ← lift (with_suffix (filepath self) ".json.backup");
        shutil_copy io (filepath self) backup_path
      else mret ());;
     let data := PyDict [("tasks", PyList (models.to_dict <$> tasks));
                         ("next_id", PyInt next_id)] in
     write_json io (filepath self) data;;
     mret true)
    (λ e, mret false).

Definition empty_state : LoadResult := {| tasks := []; next_id := PyInt 1 |}.

(** [load]: the existence check comes before the [try], so what it raises
    leaves [load]. *)
Definition load (self : JSONStorage) (io : read_fault) : M fs LoadResult :=
  file_exists ← path_exists (read_refused io) (filepath self);
  if negb file_exists then mret empty_state
  else
    try_except
      (data ← read_json io (filepath self);
       import_models io;;
       records ← lift (get data "tasks" (PyList []) ≫= iter);
       tasks ← lift (comprehension models.from_dict records);
       next_id ← lift (get data "next_id" (PyInt 1));
       mret {| tasks := tasks; next_id := next_id |})
      (λ e, mret empty_state).

(** [backup]: the existence check comes before the [try] here too. *)
Definition backup (self : JSONStorage) (io : write_fault) : M fs bool :=
  file_exists ← path_exists (write_refused io) (filepath self);
  if negb file_exists then mret false
  else
    try_except
      (backup_path ← lift (with_suffix (filepath self) ".json.backup");
       shutil_copy io (filepath self) backup_path;;
       mret true)
      (λ e, mret false).

End json.
End storage.

(** ** [todo_manager.py]: the task manager *)

Module todo_manager.
Import py pathlib.
Import models (Task, datetime, Task_init).
Import storage (fs, JSONStorage, write_fault, read_fault).

#[global] Instance datetime_eq_dec : EqDecision datetime.
Proof. solve_decision. Defined.
#[global] Instance Task_eq_dec : EqDecision Task.
Proof. solve_decision. Defined.

Record TodoManager := {
  storage : JSONStorage;
  tasks : list Task;
  next_id : Z
}.

(** What a method runs in: the file system and the manager object. *)
Record world := { disk : fs; self : TodoManager }.

Definition set_tasks (ts : list Task) : M world unit :=
  modify (λ w, {| disk := disk w;
                  self := {| storage := storage (self w); tasks := ts;
                             next_id := next_id (self w) |} |}).

Definition set_next_id (n : Z) : M world unit :=
  modify (λ w, {| disk := disk w;
                  self := {| storage := storage (self w); tasks := tasks (self w);
                             next_id := n |} |}).

(** [for task in tasks: if task.id == task_id: return (its position, task)];
    the position stands for the identity of the object found. *)
Fixpoint find_task (tasks : list Task) (task_id : Z) : option (nat * Task) :=
  match tasks with
  | [] => None
  | task :: rest =>
      if decide (models.id task = task_id) then Some (O, task)
      else prod_map S Datatypes.id <$> find_task rest task_id
  end.

(** [l.index(x)]: the position of the first element equal to [x]. *)
Fixpoint index (l : list Task) (x : Task) : result nat :=
  match l with
  | [] => Raise ValueError
  | y :: l' => if decide (y = x) then Ok O else S <$> index l' x
  end.

(** [l.remove(x)]: drops the first element equal to [x]. *)
Fixpoint remove (l : list Task) (x : Task) : result (list Task) :=
  match l with
  | [] => Raise ValueError
  | y :: l' => if decide (y = x) then Ok l' else cons y <$> remove l' x
  end.

(** [task.completed = value] on the object [task] *)
Definition set_completed (task : Task) (value : bool) : Task :=
  {| models.id := models.id task;
     models.title := models.title task;
     models.description := models.description task;
     models.completed := value;
     models.created_at := models.created_at task |}.

(** [sum(xs)] *)
Definition sum (xs : list Z) : Z := foldl Z.add 0%Z xs.

(** The dictionary [get_stats] returns. *)
Record Stats := { total : Z; completed : Z; pending : Z }.

(** One call of the public interface, with what the environment does
    during it. *)
Inductive call :=
| AddTask (io : write_fault) (now : datetime) (title description : string)
| UpdateTask (io : write_fault) (task_id : Z) (title description : option string)
| DeleteTask (io : write_fault) (task_id : Z)
| ToggleComplete (io : write_fault) (task_id : Z).

Section json.
Variable json_dumps : pyval → string.
Variable json_loads : string → option pyval.

(** The attributes [__init__] assigns before it loads. *)
Definition fresh (sto : JSONStorage) : TodoManager :=
  {| storage := sto; tasks := []; next_id := 1 |}.

(** [__init__], on a disk whose directories exist: it builds the handler
    and loads. The attribute [next_id] has the type of its annotation,
    [int]; a file whose counter is not an integer leaves the manager
    outside this model, which [None] stands for. *)
Definition init (storage_path : Path) (io : read_fault) (d : fs)
    : result (option TodoManager) :=
  let sto := {| storage.filepath := storage_path |} in
  match storage.load json_loads sto io d with
  | (Ok data, _) =>
      Ok match storage.next_id data with
         | PyInt n => Some {| storage := sto; tasks := storage.tasks data; next_id := n |}
         | _ => None
         end
  | (Raise e, _) => Raise e
  end.

Definition _save_to_storage (io : write_fault) : M world bool := λ w,
  let '(r, d) := storage.save json_dumps (storage (self w)) io
                   (tasks (self w)) (next_id (self w)) (disk w) in
  (r, {| disk := d; self := self w |}).

Definition add_task (io : write_fault) (now : datetime)
    (title description : string) : M world Task :=
  this ← gets self;
  new_task ← lift (Task_init (next_id this) title description false now);
  set_tasks (tasks this ++ [new_task]);;
  set_next_id (next_id this + 1);;
  _save_to_storage io;;
  mret new_task.

Definition get_all_tasks : M world (list Task) :=
  gets (λ w, tasks (self w)).

Definition get_task_by_id (task_id : Z) : M world (option Task) :=
  gets (λ w, snd <$> find_task (tasks (self w)) task_id).

Definition update_task (io : write_fault) (task_id : Z)
    (title description : option string) : M world bool :=
  this ← gets self;
  match find_task (tasks this) task_id with
  | None => mret false
  | Some (_, task) =>
      let new_title := default (models.title task) title in
      let new_description := default (models.description task) description in
      updated_task ← lift (Task_init (models.id task) new_title new_description
                             (models.completed task) (models.created_at task));
      i ← lift (index (tasks this) task);
      set_tasks (<[i := updated_task]> (tasks this));;
      _save_to_storage io;;
      mret true
  end.

Definition delete_task (io : write_fault) (task_id : Z) : M world bool :=
  this ← gets self;
  match find_task (tasks this) task_id with
  | None => mret false
  | Some (_, task) =>
      rest ← lift (remove (tasks this) task);
      set_tasks rest;;
      _save_to_storage io;;
      mret true
  end.

Definition toggle_complete (io : write_fault) (task_id : Z) : M world bool :=
  this ← gets self;
  match find_task (tasks this) task_id with
  | None => mret false
  | Some (i, task) =>
      set_tasks (<[i := set_completed task (negb (models.completed task))]> (tasks this));;
      _save_to_storage io;;
      mret true
  end.

Definition get_stats : M world Stats :=
  this ← gets self;
  let total := Z.of_nat (length (tasks this)) in
  let completed :=
    sum ((λ _, 1%Z) <$> filter (λ task, models.completed task = true) (tasks this)) in
  let pending := (total - completed)%Z in
  mret {| total := total; completed := completed; pending := pending |}.


(** The task a call created, if it created one. *)
Definition exec (c : call) : M world (option Task) :=
  match c with
  | AddTask io now title description => Some <$> add_task io now title description
  | UpdateTask io task_id title description =>
      update_task io task_id title description;; mret None
  | DeleteTask io task_id => delete_task io task_id;; mret None
  | ToggleComplete io task_id => toggle_complete io task_id;; mret None
  end.

(** A session: the calls in order, an exception of one reported to the
    user and the loop going on, as [main] does. Returns the tasks the
    successful [add_task] calls created, oldest first. *)
Fixpoint run (cs : list call) (w : world) : list Task * world :=
  match cs with
  | [] => ([], w)
  | c :: cs' =>
      match exec c w with
      | (Ok (Some t), w') => let '(ts, w'') := run cs' w' in (t :: ts, w'')
      | (_, w') => run cs' w'
      end
  end.

End json.
End todo_manager.

(** * The vocabulary of the properties *)

Open Scope list_scope.
Open Scope nat_scope.

Import py pathlib.
Import models (Task, datetime, Task_init).
Import storage (fs, JSONStorage, write_fault, read_fault, NoFault, CopyFails, OpenFails, DumpFails).
Import todo_manager.

(** [task_id] is the id of a task of the sequence. *)
Definition present (task_id : Z) (ts : list Task) : Prop :=
  ∃ t, t ∈ ts ∧ models.id t = task_id.

#[global] Instance present_dec task_id ts : Decision (present task_id ts).
Proof.
  refine (cast_if (decide (Exists (λ t, models.id t = task_id) ts)));
    unfold present; rewrite Exists_exists in *; naive_solver.
Defined.

(** [t] with its [completed] flag negated, as the assignment
    [task.completed = not task.completed] leaves it. *)
Definition toggled (t : Task) : Task := set_completed t (negb (models.completed t)).

(** The constraint [c] does not hold of [title] and [description]. *)
Definition violated (c : constraint) (title description : string) : Prop :=
  match c with
  | TitleNotEmpty => strip title = ""
  | TitleAtMost200 => 200 < String.length title
  | DescriptionAtMost1000 => 1000 < String.length description
  end.

(** No constraint is violated. *)
Definition acceptable (title description : string) : Prop :=
  strip title ≠ "" ∧ (String.length title ≤ 200)%nat
  ∧ (String.length description ≤ 1000)%nat.

#[global] Instance acceptable_dec title description : Decision (acceptable title description).
Proof. unfold acceptable. apply _. Defined.

(** A task the constructor accepts, with a timestamp [datetime] accepts. *)
Definition valid_task (t : Task) : Prop :=
  acceptable (models.title t) (models.description t)
  ∧ models.datetime_ok (models.created_at t) = true.

(** The document [save] writes. *)
Definition document (json_dumps : pyval → string) (ts : list Task) (n : Z) : string :=
  json_dumps (PyDict [("tasks", PyList (models.to_dict <$> ts)); ("next_id", PyInt n)]).

(** The world after a method stored [ts] and [n] in the manager and saved. *)
Definition saved (json_dumps : pyval → string) (io : write_fault) (w : world)
    (ts : list Task) (n : Z) : world :=
  {| disk := snd (storage.save json_dumps (storage (self w)) io ts n (disk w));
     self := {| storage := storage (self w); tasks := ts; next_id := n |} |}.

(** The ids of the task sequence, in order. *)
Definition ids (w : world) : list Z := models.id <$> tasks (self w).

(** What one call does to the ids of the sequence and to the counter:
    it keeps both, or it removes one position, or, when it is an
    [add_task] that succeeds, it appends the counter value as the id of
    the created task and adds one to the counter. *)
Inductive id_step (w : world) (r : result (option Task)) (w' : world) : Prop :=
| ids_kept :
    (∀ t, r ≠ Ok (Some t)) → ids w' = ids w → next_id (self w') = next_id (self w) →
    id_step w r w'
| id_removed i :
    (∀ t, r ≠ Ok (Some t)) → ids w' = delete i (ids w) →
    next_id (self w') = next_id (self w) →
    id_step w r w'
| id_issued t :
    r = Ok (Some t) → models.id t = next_id (self w) →
    tasks (self w') = tasks (self w) ++ [t] →
    next_id (self w') = (next_id (self w) + 1)%Z →
    id_step w r w'.

(** ** Concrete data for the examples *)

Module examples.

Definition noon : datetime :=
  {| models.year := 2026; models.month := 1; models.day := 15;
     models.hour := 12; models.minute := 0; models.second := 0;
     models.microsecond := 250000 |}.

Definition data_file : Path := {| parent := ["data"]; name := "tasks.json" |}.
Definition backup_file : Path := {| parent := ["data"]; name := "tasks.json.backup" |}.
Definition handler : JSONStorage := {| storage.filepath := data_file |}.

Definition buy_milk : Task :=
  {| models.id := 1; models.title := "Buy milk"; models.description := "two litres";
     models.completed := false; models.created_at := noon |}.

(** A manager holding one task, on a disk that holds the file. *)
Definition one_task : world :=
  {| disk := {[ parts data_file := "old" ]};
     self := {| storage := handler; tasks := [buy_milk]; next_id := 2 |} |}.

(** An encoder and a decoder to run the examples with: the encoder
    writes the counter, the decoder knows two documents. *)
Definition encode (v : pyval) : string :=
  match v with
  | PyDict [_; (_, PyInt n)] => "next_id=" +:+ models.zfill 4 (Z.to_N n)
  | _ => ""
  end.

Definition decode (s : string) : option pyval :=
  if decide (s = "only the counter") then Some (PyDict [("next_id", PyInt 7)])
  else if decide (s = "only the tasks") then
    Some (PyDict [("tasks", PyList [models.to_dict buy_milk])])
  else None.

End examples.

(** * [main.py]: the handler of the menu entry that adds a task *)

Module main.
Import py.
Import models (Task, datetime).
Import storage (write_fault).
Import todo_manager.

(** [str.lower] of one character (code points below 256): the letters A to
    Z and the capital letters of Latin-1, which end before the division
    sign and exclude the multiplication sign. *)
Definition lower_char (c : ascii) : ascii :=
  let n := N_of_ascii c in
  if ((65 <=? n) && (n <=? 90) || (192 <=? n) && (n <=? 222) && negb (n =? 215))%N
  then ascii_of_N (n + 32) else c.

(** [s.lower()] *)
Fixpoint lower (s : string) : string :=
  match s with
  | EmptyString => EmptyString
  | String c s' => String (lower_char c) (lower s')
  end.

(** What the handler writes, one event for each call of the [ui] module
    and of [input]; the [ui] module renders them and is not modelled
    further. *)
Inductive event :=
| Prompt (text : string)
| console_print (text : string)
| show_info (message : string)
| show_error (message : string)
| show_success (message : string)
| show_task_details (task : Task).



Definition nl : string := String (ascii_of_nat 10) "".

Definition title_prompt : string :=
  nl +:+ "Enter task title (or 'cancel' to return to menu): ".
Definition empty_title : string := "Title cannot be empty. Please enter a valid title.".
Definition long_title : string :=
  "Title must be under 200 characters. Please enter a shorter title.".
Definition blank_title : string :=
  "Title must contain non-whitespace content. Please enter a valid title.".

(** How the [while True] loop of [handle_add_task] ends. *)
Inductive asked := Chosen (title : string) | Cancelled | NoMoreInput.

(** The loop that asks for the title, one line of input per turn; returns
    the lines left and what is on the screen. *)
Fixpoint ask_title (lines : list string) (shown : list event)
    : asked * list string * list event :=
  let shown := shown ++ [Prompt title_prompt] in
  match lines with
  | [] => (NoMoreInput, [], shown)
  | line :: rest =>
      let title := strip line in
      if decide (lower title = "cancel") then
        (Cancelled, rest, shown ++ [show_info "Task creation cancelled."])
      else if decide (title = "") then ask_title rest (shown ++ [show_error empty_title])
      else if decide (200 < String.length title) then
        ask_title rest (shown ++ [show_error long_title])
      else if decide (strip title = "") then
        ask_title rest (shown ++ [show_error blank_title])
      else (Chosen title, rest, shown)
  end.


Section handlers.
Variable json_dumps : pyval → string.
(** [str(e)], the message of an exception. *)
Variable str_exception : exception → string.


End handlers.
End main.

(** ** Vocabulary of the further properties *)

(** The ids of the sequence are pairwise different and below the counter. *)
Definition well_formed (w : world) : Prop :=
  NoDup (ids w) ∧ ∀ i, i ∈ ids w → (i < next_id (self w))%Z.

(** A record no task can be rebuilt from, whatever its other fields hold:
    it is not a dictionary, or it lacks one of the required keys. *)
Definition unusable (record : pyval) : Prop :=
  match record with
  | PyDict d =>
      dict_lookup d "id" = None ∨ dict_lookup d "title" = None
      ∨ dict_lookup d "created_at" = None
  | _ => True
  end.

(** The number of completed tasks of a sequence. *)
Definition completed_count (ts : list Task) : Z :=
  Z.of_nat (count_occ bool_dec (models.completed <$> ts) true).

Module more_examples.
Import examples.

Definition walk_dog : Task :=
  {| models.id := 2; models.title := "Walk the dog"; models.description := "";
     models.completed := true; models.created_at := noon |}.

(** A manager holding two tasks, with no file on disk yet. *)
Definition two_tasks : world :=
  {| disk := ∅;
     self := {| storage := handler; tasks := [buy_milk; walk_dog]; next_id := 3 |} |}.

(** The document of [two_tasks], and a decoder that knows it and a
    document whose second record has no id. *)
Definition two_tasks_document : pyval :=
  PyDict [("tasks", PyList [models.to_dict buy_milk; models.to_dict walk_dog]);
          ("next_id", PyInt 3)].

Definition decode_more (s : string) : option pyval :=
  if decide (s = "next_id=0003") then Some two_tasks_document
  else if decide (s = "damaged") then
    Some (PyDict [("tasks", PyList [models.to_dict buy_milk;
                                    PyDict [("title", PyStr "Walk the dog")]]);
                  ("next_id", PyInt 3)])
  else None.

(** A session on [two_tasks]. *)
Definition session : list call :=
  [AddTask NoFault noon "Feed the cat" ""; DeleteTask OpenFails 1; ToggleComplete NoFault 2].

End more_examples.

(** * Properties *)

(** Unfolds the plumbing of [M] so that a method becomes a [match] on
    what it calls. *)
Ltac run_M :=
  unfold mbind, mret, fmap, M_bind, M_ret, M_fmap, result_bind, result_ret, result_fmap,
    lift, gets, modify, try_except, set_tasks, set_next_id, _save_to_storage in *;
  simpl in *.

(** ** The lookup of a task *)

Lemma find_task_Some ts task_id i t :
  find_task ts task_id = Some (i, t) →
  ts !! i = Some t ∧ models.id t = task_id ∧
  ∀ j t', j < i → ts !! j = Some t' → models.id t' ≠ task_id.
Proof.
  revert i. induction ts as [|a ts IH]; intros i H; simpl in H; [done|].
  destruct (decide (models.id a = task_id)) as [Ha|Ha].
  - injection H as <- <-. repeat split; [done|]. intros j t' Hj. lia.
  - destruct (find_task ts task_id) as [[k u]|] eqn:E; simpl in H; [|done].
    injection H as <- <-. destruct (IH k eq_refl) as (Hk & Hid & Hlt).
    repeat split; [done..|]. intros [|j] t' Hj Hl; simpl in Hl.
    + by injection Hl as <-.
    + apply (Hlt j); [lia|done].
Qed.

Lemma find_task_None ts task_id :
  find_task ts task_id = None ↔ ¬ present task_id ts.
Proof.
  unfold present. induction ts as [|a ts IH]; simpl.
  - split; [|done]. intros _ (t & Ht & _). by apply elem_of_nil in Ht.
  - destruct (decide (models.id a = task_id)) as [Ha|Ha].
    + split; [done|]. intros H. destruct H. exists a. split; [left|done].
    + destruct (find_task ts task_id) as [[k u]|]; simpl.
      * split; [done|]. intros H. exfalso.
        assert (Some (k, u) = None) as Hn; [|done].
        apply IH. intros (t & Ht & Hid). apply H. exists t. split; [by right|done].
      * split; [|done]. intros _ (t & Ht & Hid).
        apply elem_of_cons in Ht as [->|Ht]; [done|].
        destruct IH as [IH _]. apply (IH eq_refl). eauto.
Qed.

Lemma find_task_present ts task_id :
  present task_id ts → ∃ i t, find_task ts task_id = Some (i, t).
Proof.
  intros H. destruct (find_task ts task_id) as [[i t]|] eqn:E; [eauto|].
  by apply find_task_None in E.
Qed.

(** [list.index] finds the object [find_task] returned at its position. *)
Lemma index_find_task ts task_id i t :
  find_task ts task_id = Some (i, t) → index ts t = Ok i.
Proof.
  revert i. induction ts as [|a ts IH]; intros i H; simpl in *; [done|].
  destruct (decide (models.id a = task_id)) as [Ha|Ha].
  - injection H as <- <-. by rewrite decide_True.
  - destruct (find_task ts task_id) as [[k u]|] eqn:E; simpl in H; [|done].
    injection H as <- <-. rewrite decide_False.
    + by rewrite (IH k eq_refl).
    + intros ->. by destruct (find_task_Some _ _ _ _ E) as (_ & ? & _).
Qed.

(** [list.remove] drops it at its position. *)
Lemma remove_find_task ts task_id i t :
  find_task ts task_id = Some (i, t) → remove ts t = Ok (delete i ts).
Proof.
  revert i. induction ts as [|a ts IH]; intros i H; simpl in *; [done|].
  destruct (decide (models.id a = task_id)) as [Ha|Ha].
  - injection H as <- <-. by rewrite decide_True.
  - destruct (find_task ts task_id) as [[k u]|] eqn:E; simpl in H; [|done].
    injection H as <- <-. rewrite decide_False.
    + by rewrite (IH k eq_refl).
    + intros ->. by destruct (find_task_Some _ _ _ _ E) as (_ & ? & _).
Qed.

(** Replacing the found task by one of the same id leaves the lookup at
    the same position. *)
Lemma find_task_insert ts task_id i t t' :
  find_task ts task_id = Some (i, t) → models.id t' = models.id t →
  find_task (<[i := t']> ts) task_id = Some (i, t').
Proof.
  revert i. induction ts as [|a ts IH]; intros i H Hid; simpl in *; [done|].
  destruct (decide (models.id a = task_id)) as [Ha|Ha].
  - injection H as <- <-. simpl. rewrite decide_True; [done|congruence].
  - destruct (find_task ts task_id) as [[k u]|] eqn:E; simpl in H; [|done].
    injection H as <- <-. simpl. rewrite decide_False by done.
    by rewrite (IH k eq_refl Hid).
Qed.

Lemma toggled_involutive t : toggled (toggled t) = t.
Proof. destruct t. unfold toggled, set_completed. simpl. by rewrite negb_involutive. Qed.

(** ** The constraints of a task *)

Lemma length_lstrip (s : string) : String.length (lstrip s) ≤ String.length s.
Proof.
  induction s as [|c s IH]; simpl; [done|]. destruct (isspace c); simpl; lia.
Qed.

Lemma length_rev_app (s1 s2 : string) :
  String.length (String.rev_app s1 s2) = String.length s1 + String.length s2.
Proof.
  revert s2. induction s1 as [|c s1 IH]; intros s2; simpl; [done|].
  rewrite IH. simpl. lia.
Qed.

(** Stripping never lengthens: a title too long once stripped is too long. *)
Lemma length_strip (s : string) : String.length (strip s) ≤ String.length s.
Proof.
  unfold strip, rstrip, String.rev. rewrite length_rev_app. simpl.
  pose proof (length_lstrip (String.rev_app (lstrip s) "")) as H1.
  rewrite length_rev_app in H1. simpl in H1.
  pose proof (length_lstrip s). lia.
Qed.

Lemma Task_init_accepts id title description completed created_at :
  acceptable title description →
  Task_init id title description completed created_at
  = Ok {| models.id := id; models.title := title; models.description := description;
          models.completed := completed; models.created_at := created_at |}.
Proof.
  intros (H1 & H2 & H3). unfold Task_init.
  rewrite decide_False by done. rewrite !decide_False by lia. done.
Qed.

Lemma Task_init_rejects id title description completed created_at :
  ¬ acceptable title description →
  ∃ c, Task_init id title description completed created_at = Raise (ValidationError c)
       ∧ violated c title description.
Proof.
  intros H. unfold Task_init, acceptable in *.
  destruct (decide (strip title = "")); [by exists TitleNotEmpty|].
  destruct (decide (200 < String.length title)); [by exists TitleAtMost200|].
  destruct (decide (1000 < String.length description)); [by exists DescriptionAtMost1000|].
  destruct H. repeat split; [done|lia..].
Qed.

Lemma Task_init_Ok id title description completed created_at t :
  Task_init id title description completed created_at = Ok t →
  t = {| models.id := id; models.title := title; models.description := description;
         models.completed := completed; models.created_at := created_at |}.
Proof.
  intros H. destruct (decide (acceptable title description)) as [Ha|Ha].
  - rewrite Task_init_accepts in H by done. by injection H.
  - destruct (Task_init_rejects id title description completed created_at Ha) as (c & Hc & _).
    congruence.
Qed.

Section manager.
Variable json_dumps : pyval → string.

(** ** Saving never raises into the manager *)

Lemma save_total sto io ts n d :
  ∃ b d', storage.save json_dumps sto io ts n d = (Ok b, d').
Proof.
  unfold storage.save, storage.path_exists, storage.shutil_copy, storage.write_json.
  run_M. destruct (d !! parts (storage.filepath sto)) as [content|] eqn:Hd.
  - simpl. destruct (with_suffix (storage.filepath sto) ".json.backup") as [bp|e]; [|eauto].
    destruct io as [|[c|]| |c|]; simpl; rewrite ?Hd; simpl; eauto.
  - destruct io as [|[c|]| |c|]; simpl; eauto.
Qed.

Lemma toggle_complete_found io task_id w i t :
  find_task (tasks (self w)) task_id = Some (i, t) →
  toggle_complete json_dumps io task_id w
  = (Ok true, saved json_dumps io w (<[i := toggled t]> (tasks (self w))) (next_id (self w))).
Proof.
  intros H. unfold toggle_complete, saved, toggled. run_M. rewrite H. simpl.
  destruct (save_total (storage (self w)) io
              (<[i := set_completed t (negb (models.completed t))]> (tasks (self w)))
              (next_id (self w)) (disk w)) as (b & d' & ->).
  done.
Qed.

Lemma toggle_complete_absent io task_id w :
  ¬ present task_id (tasks (self w)) →
  toggle_complete json_dumps io task_id w = (Ok false, w).
Proof.
  intros H. apply find_task_None in H. unfold toggle_complete. run_M. by rewrite H.
Qed.

(** ** Statistics *)

(** C8: [get_stats] returns, in any state and without changing it, the
    length of the task sequence as [total], the number of tasks whose
    [completed] is true as [completed], and their difference as
    [pending]. *)
Theorem get_stats_counts (w : world) :
  ∃ st, get_stats w = (Ok st, w)
    ∧ total st = Z.of_nat (length (tasks (self w)))
    ∧ completed st
      = Z.of_nat (count_occ bool_dec (models.completed <$> tasks (self w)) true)
    ∧ pending st = (total st - completed st)%Z.
Proof.
  unfold get_stats. run_M. eexists. split; [done|]. simpl. repeat split.
  unfold sum. generalize (tasks (self w)). intros ts.
  assert (∀ acc, foldl Z.add acc
             ((λ _, 1%Z) <$> filter (λ task, models.completed task = true) ts)
           = (acc + Z.of_nat (count_occ bool_dec (models.completed <$> ts) true))%Z)
    as Hsum; [|by rewrite Hsum].
  induction ts as [|t ts IH]; intros acc; simpl; [lia|].
  rewrite filter_cons. destruct (decide (models.completed t = true)) as [Ht|Ht].
  - simpl. rewrite IH, Ht. destruct (bool_dec true true); [unfold fmap; lia|done].
  - rewrite IH. destruct (bool_dec (models.completed t) true); [done|unfold fmap; lia].
Qed.

(** ** What each method does, case by case *)

Lemma add_task_accepted io now title description w t :
  Task_init (next_id (self w)) title description false now = Ok t →
  add_task json_dumps io now title description w
  = (Ok t, saved json_dumps io w (tasks (self w) ++ [t]) (next_id (self w) + 1)).
Proof.
  intros H. unfold add_task, saved. run_M. rewrite H. simpl.
  destruct (save_total (storage (self w)) io (tasks (self w) ++ [t])
              (next_id (self w) + 1) (disk w)) as (b & d' & ->).
  done.
Qed.

Lemma add_task_rejected io now title description w e :
  Task_init (next_id (self w)) title description false now = Raise e →
  add_task json_dumps io now title description w = (Raise e, w).
Proof. intros H. unfold add_task. run_M. by rewrite H. Qed.

Lemma update_task_absent io task_id title description w :
  ¬ present task_id (tasks (self w)) →
  update_task json_dumps io task_id title description w = (Ok false, w).
Proof.
  intros H. apply find_task_None in H. unfold update_task. run_M. by rewrite H.
Qed.

Lemma update_task_accepted io task_id title description w i t t' :
  find_task (tasks (self w)) task_id = Some (i, t) →
  Task_init (models.id t) (default (models.title t) title)
    (default (models.description t) description)
    (models.completed t) (models.created_at t) = Ok t' →
  update_task json_dumps io task_id title description w
  = (Ok true, saved json_dumps io w (<[i := t']> (tasks (self w))) (next_id (self w))).
Proof.
  intros H Hinit. unfold update_task, saved. run_M. rewrite H. simpl.
  rewrite Hinit. simpl. rewrite (index_find_task _ _ _ _ H). simpl.
  destruct (save_total (storage (self w)) io (<[i := t']> (tasks (self w)))
              (next_id (self w)) (disk w)) as (b & d' & ->).
  done.
Qed.

Lemma update_task_rejected io task_id title description w i t e :
  find_task (tasks (self w)) task_id = Some (i, t) →
  Task_init (models.id t) (default (models.title t) title)
    (default (models.description t) description)
    (models.completed t) (models.created_at t) = Raise e →
  update_task json_dumps io task_id title description w = (Raise e, w).
Proof.
  intros H Hinit. unfold update_task. run_M. rewrite H. simpl. by rewrite Hinit.
Qed.

Lemma delete_task_absent io task_id w :
  ¬ present task_id (tasks (self w)) →
  delete_task json_dumps io task_id w = (Ok false, w).
Proof.
  intros H. apply find_task_None in H. unfold delete_task. run_M. by rewrite H.
Qed.

Lemma delete_task_found io task_id w i t :
  find_task (tasks (self w)) task_id = Some (i, t) →
  delete_task json_dumps io task_id w
  = (Ok true, saved json_dumps io w (delete i (tasks (self w))) (next_id (self w))).
Proof.
  intros H. unfold delete_task, saved. run_M. rewrite H. simpl.
  rewrite (remove_find_task _ _ _ _ H). simpl.
  destruct (save_total (storage (self w)) io (delete i (tasks (self w)))
              (next_id (self w)) (disk w)) as (b & d' & ->).
  done.
Qed.

(** ** Calls on an id that is not there *)

(** C4: on a [task_id] that no task of the sequence has, [delete_task] and
    [update_task] return [False] and leave the whole state as it was: the
    task sequence, the counter, the files on disk (nothing is saved), and
    with them the result of [get_stats]. *)
Theorem absent_id_changes_nothing (io : write_fault) (task_id : Z)
    (title description : option string) (w : world)
    (Habsent : ¬ present task_id (tasks (self w))) :
  delete_task json_dumps io task_id w = (Ok false, w)
  ∧ update_task json_dumps io task_id title description w = (Ok false, w)
  ∧ get_stats (snd (delete_task json_dumps io task_id w)) = get_stats w
  ∧ get_stats (snd (update_task json_dumps io task_id title description w))
    = get_stats w.
Proof.
  rewrite delete_task_absent, update_task_absent by done. done.
Qed.

(** ** Toggling *)

(** C7: on a [task_id] of the sequence, two calls of [toggle_complete]
    both return [True]; the first negates the [completed] flag of the task
    the lookup finds, the second gives the task, and the whole sequence,
    their original value back. *)
Theorem toggle_complete_twice (io1 io2 : write_fault) (task_id : Z) (w : world)
    (Hpresent : present task_id (tasks (self w))) :
  ∃ w1 w2 t,
    toggle_complete json_dumps io1 task_id w = (Ok true, w1)
    ∧ toggle_complete json_dumps io2 task_id w1 = (Ok true, w2)
    ∧ fst (get_task_by_id task_id w) = Ok (Some t)
    ∧ (∃ t1, fst (get_task_by_id task_id w1) = Ok (Some t1)
         ∧ models.completed t1 = negb (models.completed t))
    ∧ fst (get_task_by_id task_id w2) = Ok (Some t)
    ∧ tasks (self w2) = tasks (self w).
Proof.
  destruct (find_task_present _ _ Hpresent) as (i & t & Hfind).
  pose proof (find_task_insert _ _ _ _ (toggled t) Hfind eq_refl) as Hfind1.
  eexists _, _, t. split; [by apply toggle_complete_found|].
  split; [by apply toggle_complete_found|].
  unfold get_task_by_id, gets, saved. simpl.
  rewrite Hfind, Hfind1, list_insert_insert_eq, toggled_involutive. simpl.
  destruct (find_task_Some _ _ _ _ Hfind) as (Hi & _).
  rewrite (list_insert_id _ _ _ Hi), Hfind. simpl. eauto 10.
Qed.

(** C10: on a [task_id] of the sequence, [toggle_complete] returns [True]
    and changes one thing: the [completed] flag of the first task with
    that id, which is negated. That task keeps its id, title, description
    and creation time and its position; every other position holds the
    task it held; the length of the sequence, the counter and the storage
    handler are the same. *)
Theorem toggle_complete_frame (io : write_fault) (task_id : Z) (w : world)
    (Hpresent : present task_id (tasks (self w))) :
  ∃ w' i t t',
    toggle_complete json_dumps io task_id w = (Ok true, w')
    ∧ tasks (self w) !! i = Some t ∧ models.id t = task_id
    ∧ (∀ j u, j < i → tasks (self w) !! j = Some u → models.id u ≠ task_id)
    ∧ tasks (self w') !! i = Some t'
    ∧ models.completed t' = negb (models.completed t)
    ∧ models.id t' = models.id t
    ∧ models.title t' = models.title t
    ∧ models.description t' = models.description t
    ∧ models.created_at t' = models.created_at t
    ∧ (∀ j, j ≠ i → tasks (self w') !! j = tasks (self w) !! j)
    ∧ length (tasks (self w')) = length (tasks (self w))
    ∧ next_id (self w') = next_id (self w)
    ∧ storage (self w') = storage (self w).
Proof.
  destruct (find_task_present _ _ Hpresent) as (i & t & Hfind).
  destruct (find_task_Some _ _ _ _ Hfind) as (Hi & Hid & Hfirst).
  exists (saved json_dumps io w (<[i := toggled t]> (tasks (self w))) (next_id (self w))),
    i, t, (toggled t).
  split; [by apply toggle_complete_found|]. simpl.
  repeat split; try done.
  - apply list_lookup_insert_eq. by eapply lookup_lt_Some.
  - intros j Hj. by apply list_lookup_insert_ne.
  - apply length_insert.
Qed.

(** ** Validation on [add_task] *)

(** C1: [add_task] fails when the title is empty once stripped, when the
    title, as passed or stripped, has more than 200 characters, or when
    the description has more than 1000: it raises the validation error of a constraint the
    arguments violate, and the state (task sequence, counter, disk) is the
    one before the call. Otherwise it returns the task: so a title of 200
    characters passes and one of 201 does not, a title of whitespace only
    does not, a description of 1000 characters passes and one of 1001
    does not. *)
Theorem add_task_validates (io : write_fault) (now : datetime)
    (title description : string) (w : world) :
  (strip title = "" ∨ 200 < String.length title ∨ 200 < String.length (strip title)
   ∨ 1000 < String.length description →
   ∃ c, add_task json_dumps io now title description w = (Raise (ValidationError c), w)
        ∧ violated c title description)
  ∧ (strip title ≠ "" → (String.length title ≤ 200)%nat →
     (String.length description ≤ 1000)%nat →
     ∃ t w', add_task json_dumps io now title description w = (Ok t, w')
             ∧ models.title t = title ∧ models.description t = description).
Proof.
  split.
  - intros Hbad.
    destruct (Task_init_rejects (next_id (self w)) title description false now)
      as (c & Hc & Hv).
    + intros (H1 & H2 & H3). pose proof (length_strip title).
      destruct Hbad as [?|[?|[?|?]]]; [done|lia..].
    + exists c. split; [by apply add_task_rejected|done].
  - intros H1 H2 H3. eexists _, _. split.
    + apply add_task_accepted. by apply Task_init_accepts.
    + done.
Qed.

(** ** Updating *)

(** X24: on a [task_id] of the sequence, and with a resulting title and
    description that satisfy the constraints of a task, [update_task]
    returns [True] and puts the replacement at the position of the first
    task with that id. The title and the description of the replacement
    are the argument where one is given (the empty description included)
    and the old value where it is [None]; its id, creation time and
    completed flag are the old ones; the other tasks, the counter and the
    handler stay as they were. *)
Theorem update_task_replaces_in_place (io : write_fault) (task_id : Z)
    (title description : option string) (w : world)
    (Hpresent : present task_id (tasks (self w))) :
  ∃ i t,
    tasks (self w) !! i = Some t ∧ models.id t = task_id
    ∧ (∀ j u, j < i → tasks (self w) !! j = Some u → models.id u ≠ task_id)
    ∧ let new_title := default (models.title t) title in
      let new_description := default (models.description t) description in
      acceptable new_title new_description →
      ∃ w' t',
        update_task json_dumps io task_id title description w = (Ok true, w')
        ∧ tasks (self w') = <[i := t']> (tasks (self w))
        ∧ models.id t' = models.id t
        ∧ models.created_at t' = models.created_at t
        ∧ models.completed t' = models.completed t
        ∧ models.title t' = new_title
        ∧ models.description t' = new_description
        ∧ next_id (self w') = next_id (self w)
        ∧ storage (self w') = storage (self w).
Proof.
  destruct (find_task_present _ _ Hpresent) as (i & t & Hfind).
  destruct (find_task_Some _ _ _ _ Hfind) as (Hi & Hid & Hfirst).
  exists i, t. repeat split; try done.
  intros Hok. eexists _, _. split.
  - eapply update_task_accepted; [done|]. by apply Task_init_accepts.
  - done.
Qed.

(** ** The id counter *)

Lemma exec_id_step c w : id_step w (fst (exec json_dumps c w)) (snd (exec json_dumps c w)).
Proof.
  destruct c as [io now title description|io task_id title description|io task_id|io task_id];
    unfold exec.
  - unfold fmap, M_fmap.
    destruct (Task_init (next_id (self w)) title description false now) as [t|e] eqn:E.
    + rewrite (add_task_accepted _ _ _ _ _ _ E). simpl.
      apply (id_issued _ _ _ t); try done.
      by rewrite (Task_init_Ok _ _ _ _ _ _ E).
    + rewrite (add_task_rejected _ _ _ _ _ _ E). simpl. by apply ids_kept.
  - unfold mbind, M_bind, mret, M_ret.
    destruct (find_task (tasks (self w)) task_id) as [[i t]|] eqn:Hfind.
    + destruct (Task_init (models.id t) (default (models.title t) title)
                  (default (models.description t) description)
                  (models.completed t) (models.created_at t)) as [t'|e] eqn:E.
      * rewrite (update_task_accepted _ _ _ _ _ _ _ _ Hfind E). simpl.
        apply ids_kept; try done. unfold ids, saved. simpl.
        rewrite list_fmap_insert, (Task_init_Ok _ _ _ _ _ _ E). simpl.
        apply list_insert_id. rewrite list_lookup_fmap.
        by destruct (find_task_Some _ _ _ _ Hfind) as (-> & _).
      * rewrite (update_task_rejected _ _ _ _ _ _ _ _ Hfind E). simpl. by apply ids_kept.
    + apply find_task_None in Hfind. rewrite update_task_absent by done. simpl.
      by apply ids_kept.
  - unfold mbind, M_bind, mret, M_ret.
    destruct (find_task (tasks (self w)) task_id) as [[i t]|] eqn:Hfind.
    + rewrite (delete_task_found _ _ _ _ _ Hfind). simpl.
      apply (id_removed _ _ _ i); try done. unfold ids, saved. simpl.
      apply list_fmap_delete.
    + apply find_task_None in Hfind. rewrite delete_task_absent by done. simpl.
      by apply ids_kept.
  - unfold mbind, M_bind, mret, M_ret.
    destruct (find_task (tasks (self w)) task_id) as [[i t]|] eqn:Hfind.
    + rewrite (toggle_complete_found _ _ _ _ _ Hfind). simpl.
      apply ids_kept; try done. unfold ids, saved. simpl.
      rewrite list_fmap_insert. simpl.
      apply list_insert_id. rewrite list_lookup_fmap.
      by destruct (find_task_Some _ _ _ _ Hfind) as (-> & _).
    + apply find_task_None in Hfind. rewrite toggle_complete_absent by done. simpl.
      by apply ids_kept.
Qed.



End manager.

(** ** Strings and paths *)

Lemma length_app (s1 s2 : string) :
  String.length (s1 +:+ s2) = String.length s1 + String.length s2.
Proof. induction s1 as [|c s1 IH]; simpl; [done|by rewrite IH]. Qed.

Lemma length_str_take (n : nat) (s : string) :
  n ≤ String.length s → String.length (str_take n s) = n.
Proof.
  revert s. induction n as [|n IH]; intros [|c s]; simpl; try done; try lia.
  intros H. rewrite IH; lia.
Qed.

Lemma length_str_drop (n : nat) (s : string) :
  String.length (str_drop n s) = String.length s - n.
Proof. revert s. induction n as [|n IH]; intros [|c s]; simpl; try done. Qed.

Lemma rfind_lt (c : ascii) (s : string) (i : nat) :
  rfind c s = Some i → i < String.length s.
Proof.
  revert i. induction s as [|a s IH]; intros i; simpl; [done|].
  destruct (rfind c s) as [j|].
  - intros [= <-]. specialize (IH j eq_refl). lia.
  - destruct (decide (a = c)); [|done]. intros [= <-]. lia.
Qed.

Lemma rfind_app (c : ascii) (a b : string) (j : nat) :
  rfind c b = Some j → rfind c (a +:+ b) = Some (String.length a + j).
Proof. intros H. induction a as [|x a IH]; simpl; [done|by rewrite IH]. Qed.

(** The backup path is never the path of the file itself. *)
Lemma with_suffix_backup_distinct (p bp : Path) :
  with_suffix p ".json.backup" = Ok bp → parts bp ≠ parts p.
Proof.
  unfold with_suffix. destruct (decide (name p = "")) as [|Hname]; [done|].
  intros [= <-]. unfold parts. simpl. intros Heq.
  apply app_inv_head in Heq. injection Heq as Heq.
  destruct (decide (suffix p = "")) as [Hs|Hs].
  - apply (f_equal String.length) in Heq. rewrite length_app in Heq. simpl in Heq. lia.
  - unfold suffix in *. destruct (rfind "." (name p)) as [i|] eqn:Hr; [|done].
    destruct (decide (0 < i < String.length (name p) - 1)) as [Hi|]; [|done].
    rewrite length_str_drop in Heq.
    replace (String.length (name p) - (String.length (name p) - i)) with i in Heq by lia.
    pose proof (rfind_app "." (str_take i (name p)) ".json.backup" 5 eq_refl) as Hr'.
    rewrite Heq, Hr, length_str_take in Hr' by lia.
    injection Hr' as Hr'. lia.
Qed.

Lemma with_suffix_nonempty (p : Path) (sfx : string) :
  name p ≠ "" → ∃ bp, with_suffix p sfx = Ok bp.
Proof. intros H. unfold with_suffix. rewrite decide_False by done. eauto. Qed.

(** ** The storage handler *)

Section handler.
Variable json_dumps : pyval → string.
Variable json_loads : string → option pyval.

(** C9: [save] always returns. When a file is at the target path, its
    content is under the backup path, a different path, whenever the
    target has changed, so the copy comes before the overwrite; after a
    save that returns [True] the backup holds that content and the target
    holds the new document. When no file is at the target path, no other
    path changes, so no backup is created, and a save that returns [True]
    has written the new document. Without an I/O failure, and with a path
    that has a name when the file exists, the save returns [True]. *)
Theorem save_backs_up_then_overwrites (sto : JSONStorage) (io : write_fault)
    (ts : list Task) (n : Z) (d : fs) :
  let target := parts (storage.filepath sto) in
  ∃ b d', storage.save json_dumps sto io ts n d = (Ok b, d')
    ∧ match d !! target with
      | Some old =>
          (d' !! target ≠ Some old ∨ b = true →
           ∃ bp, with_suffix (storage.filepath sto) ".json.backup" = Ok bp
                 ∧ parts bp ≠ target ∧ d' !! parts bp = Some old)
          ∧ (b = true → d' !! target = Some (document json_dumps ts n))
          ∧ (io = NoFault → name (storage.filepath sto) ≠ "" → b = true)
      | None =>
          (∀ p, p ≠ target → d' !! p = d !! p)
          ∧ (b = true → d' !! target = Some (document json_dumps ts n))
          ∧ (io = NoFault → b = true)
      end.
Proof.
  intros target. unfold storage.save, storage.path_exists, storage.shutil_copy,
    storage.write_json, document. run_M. fold target.
  destruct (d !! target) as [old|] eqn:Hd; simpl.
  - destruct (with_suffix (storage.filepath sto) ".json.backup") as [bp|e] eqn:Hbp; simpl.
    + pose proof (with_suffix_backup_distinct _ _ Hbp) as Hne. fold target in Hne.
      destruct io as [|[c|]| |c|]; simpl; rewrite ?Hd; simpl;
        eexists _, _; (split; [done|]); repeat split; try done;
        try (intros _; by simplify_map_eq);
        try (intros [Hch|?]; [|done]; destruct Hch; by simplify_map_eq);
        try (intros _; exists bp; split; [done|]; split; [done|]; by simplify_map_eq).
    + destruct (decide (name (storage.filepath sto) = "")) as [Hn|Hn].
      * eexists _, _. split; [done|]. repeat split; try done.
        intros [?|?]; done.
      * destruct (with_suffix_nonempty (storage.filepath sto) ".json.backup" Hn).
        congruence.
  - destruct io as [|[c|]| |c|]; simpl; eexists _, _; (split; [done|]);
      repeat split; try done; intros; by simplify_map_eq.
Qed.

Lemma load_without_file (sto : JSONStorage) (io : read_fault) (d : fs) :
  d !! parts (storage.filepath sto) = None →
  io ≠ storage.CheckFails →
  storage.load json_loads sto io d = (Ok storage.empty_state, d).
Proof.
  intros Hd Hio. unfold storage.load, storage.path_exists. run_M. rewrite Hd.
  by destruct io.
Qed.

Lemma load_refused (sto : JSONStorage) (d : fs) :
  d !! parts (storage.filepath sto) = None →
  storage.load json_loads sto storage.CheckFails d = (Raise OSError, d).
Proof.
  intros Hd. unfold storage.load, storage.path_exists. run_M. by rewrite Hd.
Qed.

(** C5 does not hold of the code: [load] calls [exists()] ahead of its
    [try], so with no file to find and the check refused, [OSError]
    leaves [load], where the claim and the docstring of [load] promise
    the empty state. That is the one way out: with no file and the check
    answered, [load] returns the empty state, no task and counter 1. With
    a file it never raises, leaves the disk alone, and its result is
    fixed in every case: the empty state when the file is not a JSON
    document, when reading it or the import fails, when the document is
    not a dictionary, and when its task list cannot be walked or holds a
    record that cannot be rebuilt; otherwise the rebuilt tasks beside the
    stored counter, where a missing ["tasks"] stands for the empty list
    and a missing ["next_id"] for 1. *)
Theorem load_raises_only_on_refused_check (sto : JSONStorage) (io : read_fault) (d : fs) :
  let target := parts (storage.filepath sto) in
  match d !! target with
  | None =>
      (io = storage.CheckFails →
       storage.load json_loads sto io d = (Raise OSError, d))
      ∧ (io ≠ storage.CheckFails →
         storage.load json_loads sto io d = (Ok storage.empty_state, d))
  | Some content =>
      ∃ res, storage.load json_loads sto io d = (Ok res, d)
        ∧ (json_loads content = None → res = storage.empty_state)
        ∧ (io = storage.ReadFails ∨ io = storage.ImportFails →
           res = storage.empty_state)
        ∧ (∀ data, json_loads content = Some data →
           (∀ dict, data ≠ PyDict dict) → res = storage.empty_state)
        ∧ (∀ dict, json_loads content = Some (PyDict dict) →
           io ≠ storage.ReadFails → io ≠ storage.ImportFails →
           match iter (dict_get dict "tasks" (PyList []))
                 ≫= comprehension models.from_dict with
           | Ok loaded =>
               res = {| storage.tasks := loaded;
                        storage.next_id := dict_get dict "next_id" (PyInt 1) |}
           | Raise _ => res = storage.empty_state
           end
           ∧ (dict_lookup dict "tasks" = None →
              res = {| storage.tasks := [];
                       storage.next_id := dict_get dict "next_id" (PyInt 1) |})
           ∧ (dict_lookup dict "next_id" = None →
              storage.next_id res = PyInt 1))
  end.
Proof.
  intros target. unfold storage.load, storage.path_exists, storage.read_json,
    storage.import_models, get. run_M. fold target.
  destruct (d !! target) as [content|] eqn:Hd; simpl.
  2: { split; intros Hio; [by subst io|by destruct io]. }
  destruct (json_loads content) as [data|] eqn:Hjson;
    destruct io; simpl; rewrite ?Hd, ?Hjson; simpl.
  all: try (exists storage.empty_state; split; [reflexivity|];
            repeat split; intros; simplify_eq; try done; naive_solver).
  all: destruct data as [| | | | |l|dict]; simpl.
  all: try (exists storage.empty_state; split; [reflexivity|];
            repeat split; intros; simplify_eq; try done; naive_solver).
  all: destruct (iter (dict_get dict "tasks" (PyList []))) as [records|e] eqn:Hiter;
    simpl;
    [destruct (comprehension models.from_dict records) as [loaded|e] eqn:Hc; simpl|].
  all: eexists; (split; [reflexivity|]).
  all: repeat split; intros; simplify_eq; try done.
  all: try match goal with H : _ ∨ _ |- _ => by destruct H end.
  all: try match goal with
           | H : ∀ x : list (string * pyval), _ |- _ => by destruct (H _ eq_refl)
           end.
  all: rewrite ?Hiter; simpl; rewrite ?Hc; try done.
  all: try (unfold dict_get;
            by match goal with
               | H : dict_lookup _ "next_id" = None |- _ => rewrite H
               end).
  all: match goal with
       | H : dict_lookup _ "tasks" = None |- _ =>
           unfold dict_get at 1 in Hiter; rewrite H in Hiter
       end;
       simpl in Hiter; simplify_eq; simpl in *; by simplify_eq.
Qed.

(** A manager built on a disk with no file at its path is the fresh one;
    the sessions of [counter_counts_added_tasks] start there. *)
Lemma init_without_file (storage_path : Path) (io : read_fault) (d : fs) :
  d !! parts storage_path = None →
  io ≠ storage.CheckFails →
  init json_loads storage_path io d
  = Ok (Some (fresh {| storage.filepath := storage_path |})).
Proof.
  intros Hd Hio. unfold init. by rewrite load_without_file.
Qed.

End handler.

(** ** The record of a task *)

Import models.

Lemma digit_value_digit (n : N) : digit_value (digit n) = Some (n mod 10)%N.
Proof.
  unfold digit_value, digit.
  assert (n mod 10 < 10)%N as Hlt by (apply N.mod_lt; lia).
  generalize dependent (n mod 10)%N. intros m Hlt.
  rewrite N_ascii_embedding by lia.
  destruct (48 <=? 48 + m)%N eqn:H1; [|apply N.leb_gt in H1; lia].
  destruct (48 + m <=? 57)%N eqn:H2; [|apply N.leb_gt in H2; lia].
  simpl. f_equal. lia.
Qed.

Lemma read_digits_zfill (w : nat) (n acc : N) (rest : string) :
  read_digits w acc (zfill w n +:+ rest)
  = Some ((acc * 10 ^ N.of_nat w + n mod 10 ^ N.of_nat w)%N, rest).
Proof.
  revert acc. induction w as [|w IH]; intros acc.
  - simpl. f_equal. f_equal. rewrite N.mod_1_r. lia.
  - change (zfill (S w) n +:+ rest)
      with (String (digit (n / 10 ^ N.of_nat w)) (zfill w n +:+ rest)).
    cbn [read_digits]. rewrite digit_value_digit. cbn [mbind option_bind].
    rewrite IH. f_equal. f_equal.
    rewrite Nat2N.inj_succ, N.pow_succ_r'.
    rewrite (N.mul_comm 10 (10 ^ N.of_nat w)).
    rewrite (N.Div0.mod_mul_r n (10 ^ N.of_nat w) 10). lia.
Qed.

Lemma read_digits_zfill_small (w : nat) (n : N) (rest : string) :
  (n < 10 ^ N.of_nat w)%N → read_digits w 0 (zfill w n +:+ rest) = Some (n, rest).
Proof. intros H. rewrite read_digits_zfill, N.mod_small by done. done. Qed.

Lemma append_empty_r (s : string) : s +:+ "" = s.
Proof.
  induction s as [|c s IH]; [done|].
  change (String c (s +:+ "") = String c s). by rewrite IH.
Qed.

Lemma read_char_literal (c : ascii) (rest : string) :
  read_char c (String c "" +:+ rest) = Some rest.
Proof. simpl. by rewrite decide_True. Qed.

(** [fromisoformat] reads back what [isoformat] prints. *)
Lemma fromisoformat_isoformat (d : datetime) :
  datetime_ok d = true → fromisoformat (isoformat d) = Ok d.
Proof.
  intros Hok. unfold fromisoformat.
  assert (parse_isoformat (isoformat d) = Some d) as ->; [|by rewrite Hok].
  unfold datetime_ok in Hok. repeat (apply andb_prop in Hok as [Hok ?]).
  repeat match goal with
         | H : (_ <=? _)%N = true |- _ => apply N.leb_le in H
         | H : (_ <? _)%N = true |- _ => apply N.ltb_lt in H
         end.
  assert (days_in_month (year d) (month d) <= 31)%N as Hdays.
  { unfold days_in_month. repeat case_match; lia. }
  unfold parse_isoformat, isoformat.
  do 5 (rewrite read_digits_zfill_small by (simpl; lia); cbn [mbind option_bind];
        rewrite read_char_literal; cbn [mbind option_bind]).
  rewrite read_digits_zfill_small by (simpl; lia). cbn [mbind option_bind].
  destruct (decide (microsecond d = 0%N)) as [Hus|Hus].
  - simpl. destruct d; simpl in *. by subst.
  - rewrite <-(append_empty_r (zfill 6 (microsecond d))).
    change ("." +:+ zfill 6 (microsecond d) +:+ "")
      with (String "." (zfill 6 (microsecond d) +:+ "")).
    unfold read_fraction. cbn [read_char]. rewrite decide_True by done.
    cbn [mbind option_bind].
    rewrite read_digits_zfill_small by (simpl; lia). cbn [mbind option_bind].
    rewrite decide_True by done. by destruct d.
Qed.

(** C3: for every valid task [t], rebuilding it from its record gives [t]
    back, equal in every field, the creation time included. *)
Theorem from_dict_to_dict (t : Task) (Hvalid : valid_task t) :
  from_dict (to_dict t) = Ok t.
Proof.
  destruct Hvalid as [Hfields Hstamp].
  unfold from_dict, to_dict, dict_getitem, dict_get. simpl.
  rewrite fromisoformat_isoformat by done. simpl.
  rewrite Task_init_accepts by done. by destruct t.
Qed.


(** * The properties on concrete sessions *)

Import examples.

Lemma one_task_has_1 : present 1 (tasks (self one_task)).
Proof. exists buy_milk. split; [left|done]. Qed.

Lemma one_task_lacks_7 : ¬ present 7 (tasks (self one_task)).
Proof. intros (t & Ht & Hid). apply list_elem_of_singleton in Ht. by subst. Qed.

Lemma from_dict_to_dict_witness :
  valid_task buy_milk ∧ from_dict (to_dict buy_milk) = Ok buy_milk.
Proof.
  assert (valid_task buy_milk) as Hvalid.
  { split; [|reflexivity]. repeat split; [done|simpl; lia..]. }
  split; [exact Hvalid|]. exact (from_dict_to_dict buy_milk Hvalid).
Defined.

Lemma absent_id_changes_nothing_witness :
  ¬ present 7 (tasks (self one_task))
  ∧ delete_task encode NoFault 7 one_task = (Ok false, one_task)
  ∧ update_task encode NoFault 7 (Some "Buy bread") None one_task = (Ok false, one_task).
Proof.
  split; [exact one_task_lacks_7|].
  destruct (absent_id_changes_nothing encode NoFault 7 (Some "Buy bread") None one_task
              one_task_lacks_7) as (Hdel & Hupd & _).
  split; [exact Hdel|exact Hupd].
Defined.

Lemma toggle_complete_twice_witness :
  present 1 (tasks (self one_task))
  ∧ ∃ w1 w2,
      toggle_complete encode NoFault 1 one_task = (Ok true, w1)
      ∧ toggle_complete encode OpenFails 1 w1 = (Ok true, w2)
      ∧ tasks (self w2) = [buy_milk].
Proof.
  split; [exact one_task_has_1|].
  destruct (toggle_complete_twice encode NoFault OpenFails 1 one_task one_task_has_1)
    as (w1 & w2 & t & H1 & H2 & _ & _ & _ & Hts).
  exists w1, w2. split; [exact H1|]. split; [exact H2|exact Hts].
Defined.

Lemma toggle_complete_frame_witness :
  present 1 (tasks (self one_task))
  ∧ ∃ w', toggle_complete encode NoFault 1 one_task = (Ok true, w')
          ∧ next_id (self w') = 2%Z ∧ length (tasks (self w')) = 1.
Proof.
  split; [exact one_task_has_1|].
  destruct (toggle_complete_frame encode NoFault 1 one_task one_task_has_1)
    as (w' & i & t & t' & H & _ & _ & _ & _ & _ & _ & _ & _ & _ & _ & Hlen & Hn & _).
  exists w'. split; [exact H|]. split; [exact Hn|exact Hlen].
Defined.

Lemma update_task_replaces_in_place_witness :
  present 1 (tasks (self one_task))
  ∧ ∃ w' t',
      update_task encode NoFault 1 None (Some "") one_task = (Ok true, w')
      ∧ tasks (self w') = [t']
      ∧ title t' = "Buy milk" ∧ description t' = "".
Proof.
  split; [exact one_task_has_1|].
  destruct (update_task_replaces_in_place encode NoFault 1 None (Some "") one_task
              one_task_has_1) as (i & t & Hi & _ & _ & Hok).
  destruct i as [|i]; simpl in Hi; [|discriminate Hi].
  injection Hi as <-.
  destruct Hok as (w' & t' & Hupd & Hts & _ & _ & _ & Htitle & Hdesc & _).
  { repeat split; [done|simpl; lia..]. }
  exists w', t'. split; [exact Hupd|]. split; [exact Hts|]. split; [exact Htitle|exact Hdesc].
Defined.

Lemma add_task_validates_witness :
  let w := one_task in
  let add title description := fst (add_task encode NoFault noon title description w) in
  (∃ t, add (str_mul "a" 200) "" = Ok t)
  ∧ (∃ c, add (str_mul "a" 201) "" = Raise (ValidationError c))
  ∧ (∃ c, add "   " "" = Raise (ValidationError c))
  ∧ (∃ t, add "a" (str_mul "d" 1000) = Ok t)
  ∧ (∃ c, add "a" (str_mul "d" 1001) = Raise (ValidationError c)).
Proof.
  intros w add. unfold add. repeat split.
  - destruct (add_task_validates encode NoFault noon (str_mul "a" 200) "" w)
      as [_ Hok].
    destruct Hok as (t & w' & -> & _); [vm_compute; discriminate|vm_compute; lia..|].
    by exists t.
  - destruct (add_task_validates encode NoFault noon (str_mul "a" 201) "" w)
      as [Hbad _].
    destruct Hbad as (c & -> & _); [right; left; vm_compute; lia|]. by exists c.
  - destruct (add_task_validates encode NoFault noon "   " "" w) as [Hbad _].
    destruct Hbad as (c & -> & _); [left; reflexivity|]. by exists c.
  - destruct (add_task_validates encode NoFault noon "a" (str_mul "d" 1000) w)
      as [_ Hok].
    destruct Hok as (t & w' & -> & _); [vm_compute; discriminate|vm_compute; lia..|].
    by exists t.
  - destruct (add_task_validates encode NoFault noon "a" (str_mul "d" 1001) w)
      as [Hbad _].
    destruct Hbad as (c & -> & _); [do 3 right; vm_compute; lia|]. by exists c.
Defined.

Lemma save_backs_up_then_overwrites_witness :
  ∃ d', storage.save encode handler NoFault [buy_milk] 2 (disk one_task) = (Ok true, d')
        ∧ d' !! parts backup_file = Some "old"
        ∧ d' !! parts data_file = Some "next_id=0002".
Proof.
  destruct (save_backs_up_then_overwrites encode handler NoFault [buy_milk] 2
              (disk one_task)) as (b & d' & Hsave & Hcase).
  change (disk one_task !! parts (storage.filepath handler)) with (Some "old") in Hcase.
  destruct Hcase as (Hbackup & Htarget & Hok).
  assert (b = true) as -> by (by apply Hok).
  destruct (Hbackup (or_intror eq_refl)) as (bp & Hbp & _ & Hold).
  injection Hbp as <-.
  exists d'. split; [exact Hsave|]. split; [exact Hold|]. exact (Htarget eq_refl).
Defined.

Lemma load_raises_only_on_refused_check_witness :
  ∃ res, storage.load decode handler storage.ReadOk {[ parts data_file := "only the tasks" ]}
         = (Ok res, {[ parts data_file := "only the tasks" ]})
         ∧ storage.next_id res = PyInt 1
         ∧ storage.tasks res = [buy_milk].
Proof.
  pose proof (load_raises_only_on_refused_check decode handler storage.ReadOk
                {[ parts data_file := "only the tasks" ]}) as Hload.
  change (({[ parts data_file := "only the tasks" ]} : storage.fs)
            !! parts (storage.filepath handler))
    with (Some "only the tasks") in Hload.
  destruct Hload as (res & Hload & _ & _ & _ & Hdoc).
  destruct (Hdoc [("tasks", PyList [to_dict buy_milk])] eq_refl) as (Hres & _ & Hnext);
    [done..|].
  exists res. split; [exact Hload|]. split; [exact (Hnext eq_refl)|].
  change (res = {| storage.tasks := [buy_milk]; storage.next_id := PyInt 1 |}) in Hres.
  by rewrite Hres.
Defined.

(** With no file at the path of the handler and the existence check
    refused, as it is for a file name of 300 characters, [load] raises
    [OSError]; it does not return the empty state. *)
Lemma load_propagates_refused_check :
  storage.load decode handler storage.CheckFails ∅ = (Raise OSError, ∅)
  ∧ ¬ ∃ res, storage.load decode handler storage.CheckFails ∅ = (Ok res, ∅).
Proof.
  assert (storage.load decode handler storage.CheckFails ∅ = (Raise OSError, ∅)) as Hraise.
  { by apply load_refused. }
  split; [exact Hraise|]. intros (res & Hres). rewrite Hraise in Hres. discriminate Hres.
Qed.

(** * Further properties of the storage handler *)

Section handler_outcomes.
Variable json_dumps : pyval → string.
Variable json_loads : string → option pyval.

(** [save], outcome by outcome. *)
Lemma save_cases (sto : JSONStorage) (io : write_fault) (ts : list Task) (n : Z) (d : fs) :
  let target := parts (storage.filepath sto) in
  storage.save json_dumps sto io ts n d
  = match d !! target with
    | Some old =>
        match with_suffix (storage.filepath sto) ".json.backup" with
        | Raise _ => (Ok false, d)
        | Ok bp =>
            match io with
            | NoFault =>
                (Ok true, <[target := document json_dumps ts n]> (<[parts bp := old]> d))
            | CopyFails (Some partial) => (Ok false, <[parts bp := partial]> d)
            | CopyFails None => (Ok false, d)
            | OpenFails => (Ok false, <[parts bp := old]> d)
            | DumpFails written =>
                (Ok false, <[target := written]> (<[parts bp := old]> d))
            | storage.ExistsFails =>
                (Ok true, <[target := document json_dumps ts n]> (<[parts bp := old]> d))
            end
        end
    | None =>
        match io with
        | OpenFails | storage.ExistsFails => (Ok false, d)
        | DumpFails written => (Ok false, <[target := written]> d)
        | _ => (Ok true, <[target := document json_dumps ts n]> d)
        end
    end.
Proof.
  intros target. unfold storage.save, storage.path_exists, storage.shutil_copy,
    storage.write_json, document. run_M. fold target.
  destruct (d !! target) as [old|] eqn:Hd; simpl.
  - destruct (with_suffix (storage.filepath sto) ".json.backup") as [bp|e]; simpl; [|done].
    destruct io as [|[c|]| |c|]; simpl; rewrite ?Hd; done.
  - destruct io as [|[c|]| |c|]; done.
Qed.

(** [backup], outcome by outcome. *)
Lemma backup_cases (sto : JSONStorage) (io : write_fault) (d : fs) :
  let target := parts (storage.filepath sto) in
  storage.backup sto io d
  = match d !! target with
    | Some content =>
        match with_suffix (storage.filepath sto) ".json.backup" with
        | Raise _ => (Ok false, d)
        | Ok bp =>
            match io with
            | CopyFails (Some partial) => (Ok false, <[parts bp := partial]> d)
            | CopyFails None => (Ok false, d)
            | _ => (Ok true, <[parts bp := content]> d)
            end
        end
    | None => (if storage.write_refused io then Raise OSError else Ok false, d)
    end.
Proof.
  intros target. unfold storage.backup, storage.path_exists, storage.shutil_copy.
  run_M. fold target.
  destruct (d !! target) as [content|] eqn:Hd; simpl; [|by destruct io].
  destruct (with_suffix (storage.filepath sto) ".json.backup") as [bp|e]; simpl; [|done].
  destruct io as [|[c|]| |c|]; simpl; rewrite ?Hd; done.
Qed.

(** X1: [backup] raises in one case only and never changes the file it
    backs up. Without a file at the target path it raises [OSError] when
    the existence check is refused, the check being ahead of the [try],
    and returns [False] otherwise; the disk is as it was. With a file it
    never raises; when it returns [True], the backup path holds the
    content of the target; and when the path has a name it returns [True]
    unless the copy fails. *)
Theorem backup_copies_or_refuses (sto : JSONStorage) (io : write_fault) (d : fs) :
  let target := parts (storage.filepath sto) in
  match d !! target with
  | None =>
      storage.backup sto io d
      = (if storage.write_refused io then Raise OSError else Ok false, d)
  | Some content =>
      ∃ b d', storage.backup sto io d = (Ok b, d')
        ∧ d' !! target = Some content
        ∧ (b = true →
           ∃ bp, with_suffix (storage.filepath sto) ".json.backup" = Ok bp
             ∧ d' !! parts bp = Some content)
        ∧ (name (storage.filepath sto) ≠ "" →
           (∀ left, io ≠ CopyFails left) → b = true)
  end.
Proof.
  intros target. rewrite backup_cases. fold target.
  destruct (d !! target) as [content|] eqn:Hd; [|done].
  destruct (with_suffix (storage.filepath sto) ".json.backup") as [bp|e] eqn:Hbp.
  - pose proof (with_suffix_backup_distinct _ _ Hbp) as Hne. fold target in Hne.
    destruct io as [|[c|]| |c|]; eexists _, _; (split; [done|]);
      repeat split; try done; try (by simplify_map_eq);
      try (intros _; exists bp; by simplify_map_eq);
      try (intros _ Hio; exfalso; by eapply Hio).
  - eexists _, _. split; [done|]. repeat split; try done.
    intros Hname. destruct (with_suffix_nonempty _ ".json.backup" Hname). congruence.
Qed.

(** X3: a [save] that returns [False] has left the target file as it was,
    unless the failure came while the document was being written, after
    [open] had truncated the file. *)
Theorem save_failure_keeps_target (sto : JSONStorage) (io : write_fault)
    (ts : list Task) (n : Z) (d d' : fs)
    (Hfalse : storage.save json_dumps sto io ts n d = (Ok false, d'))
    (Hio : ∀ written, io ≠ DumpFails written) :
  d' !! parts (storage.filepath sto) = d !! parts (storage.filepath sto).
Proof.
  rewrite save_cases in Hfalse.
  destruct (d !! parts (storage.filepath sto)) as [old|] eqn:Hd.
  - destruct (with_suffix (storage.filepath sto) ".json.backup") as [bp|e] eqn:Hbp;
      [|by simplify_eq].
    pose proof (with_suffix_backup_distinct _ _ Hbp) as Hne.
    destruct io as [|[c|]| |c|]; simplify_eq; try by simplify_map_eq.
    by destruct (Hio c).
  - destruct io as [|[c|]| |c|]; simplify_eq; try done. by destruct (Hio c).
Qed.

(** A [save] that returns [True] has written the document. *)
Lemma save_true_target (sto : JSONStorage) (io : write_fault)
    (ts : list Task) (n : Z) (d d' : fs) :
  storage.save json_dumps sto io ts n d = (Ok true, d') →
  d' !! parts (storage.filepath sto) = Some (document json_dumps ts n).
Proof.
  rewrite save_cases. intros H.
  destruct (d !! parts (storage.filepath sto)) as [old|].
  - destruct (with_suffix (storage.filepath sto) ".json.backup") as [bp|e]; [|by simplify_eq].
    destruct io as [|[c|]| |c|]; simplify_eq; by simplify_map_eq.
  - destruct io as [|[c|]| |c|]; simplify_eq; by simplify_map_eq.
Qed.

(** [load] on a file that holds a document of tasks and a counter. *)
Lemma load_document (sto : JSONStorage) (d : fs) (content : string)
    (data : list (string * pyval)) (records : list pyval) :
  d !! parts (storage.filepath sto) = Some content →
  json_loads content = Some (PyDict data) →
  dict_lookup data "tasks" = Some (PyList records) →
  storage.load json_loads sto storage.ReadOk d
  = (Ok match comprehension models.from_dict records with
        | Ok loaded => {| storage.tasks := loaded;
                          storage.next_id := dict_get data "next_id" (PyInt 1) |}
        | Raise _ => storage.empty_state
        end, d).
Proof.
  intros Hd Hjson Htasks. unfold storage.load, storage.path_exists, storage.read_json,
    storage.import_models, get. run_M. rewrite Hd. simpl. rewrite Hd, Hjson. simpl.
  unfold dict_get at 1. rewrite Htasks. simpl.
  by destruct (comprehension models.from_dict records).
Qed.

(** X4: what a successful [save] wrote, [load] reads back: when the
    decoder inverts the encoder on the saved document and every saved task
    is rebuilt from its record, [load] returns the saved tasks, in order,
    and the saved counter. *)
Theorem load_after_save (sto : JSONStorage) (io : write_fault)
    (ts : list Task) (n : Z) (d d' : fs)
    (Hsaved : storage.save json_dumps sto io ts n d = (Ok true, d'))
    (Hjson : json_loads (document json_dumps ts n)
             = Some (PyDict [("tasks", PyList (to_dict <$> ts)); ("next_id", PyInt n)]))
    (Hrecords : comprehension from_dict (to_dict <$> ts) = Ok ts) :
  storage.load json_loads sto storage.ReadOk d'
  = (Ok {| storage.tasks := ts; storage.next_id := PyInt n |}, d').
Proof.
  rewrite (load_document sto d' _ _ (to_dict <$> ts) (save_true_target _ _ _ _ _ _ Hsaved) Hjson)
    by done.
  by rewrite Hrecords.
Qed.

Lemma from_dict_unusable (record : pyval) :
  unusable record → ∃ e, models.from_dict record = Raise e.
Proof.
  unfold models.from_dict, dict_getitem.
  destruct record as [| | | | |l|dict]; simpl; eauto.
  intros [H|[H|H]].
  - rewrite H. simpl. eauto.
  - rewrite H. destruct (dict_lookup dict "id") as [v|]; simpl; [|eauto].
    destruct (models.as_int v); simpl; eauto.
  - rewrite H. destruct (dict_lookup dict "id") as [v|]; simpl; [|eauto].
    destruct (models.as_int v); simpl; [|eauto].
    destruct (dict_lookup dict "title") as [v'|]; simpl; [|eauto].
    destruct (models.as_str v'); simpl; [|eauto].
    destruct (models.as_str _); simpl; [|eauto].
    destruct (models.as_bool _); simpl; eauto.
Qed.

Lemma comprehension_raises {A B : Type} (f : A → result B) (l : list A) :
  Exists (λ x, ∃ e, f x = Raise e) l → ∃ e, comprehension f l = Raise e.
Proof.
  induction 1 as [x l [e He]|x l _ [e IH]]; simpl.
  - rewrite He. simpl. eauto.
  - destruct (f x); simpl; [|eauto]. rewrite IH. simpl. eauto.
Qed.

(** X5: one unusable record costs the whole file. When a record of the
    stored list is not a dictionary, or lacks ["id"], ["title"] or
    ["created_at"], [load] on the file returns the empty state, without
    the tasks that could be rebuilt and with the counter back at 1,
    whatever counter the file holds and whatever the reading does. *)
Theorem load_drops_all_on_bad_record (sto : JSONStorage) (io : read_fault) (d : fs)
    (content : string) (data : list (string * pyval)) (records : list pyval)
    (Hfile : d !! parts (storage.filepath sto) = Some content)
    (Hjson : json_loads content = Some (PyDict data))
    (Htasks : dict_lookup data "tasks" = Some (PyList records))
    (Hbad : Exists unusable records) :
  storage.load json_loads sto io d = (Ok storage.empty_state, d).
Proof.
  destruct (comprehension_raises models.from_dict records) as [e He].
  { eapply Exists_impl; [exact Hbad|]. apply from_dict_unusable. }
  unfold storage.load, storage.path_exists, storage.read_json, storage.import_models,
    get. run_M. rewrite Hfile. simpl.
  destruct io; simpl; rewrite ?Hfile, ?Hjson; simpl; try done.
  all: unfold dict_get at 1; rewrite Htasks; simpl; by rewrite He.
Qed.

End handler_outcomes.

(** X6: the backup of a file [stem.ext] is [stem.json.backup] in the same
    directory, whatever the extension: the last extension is replaced, not
    extended. *)
Theorem backup_name_replaces_extension (dir : list string) (stem ext : string)
    (Hstem : stem ≠ "") (Hext : ext ≠ "") (Hdot : rfind "." ext = None) :
  with_suffix {| parent := dir; name := stem +:+ "." +:+ ext |} ".json.backup"
  = Ok {| parent := dir; name := stem +:+ ".json.backup" |}.
Proof.
  assert (String.length stem ≠ 0) as Hlen by (by destruct stem).
  assert (String.length ext ≠ 0) as Hlen' by (by destruct ext).
  assert (rfind "." (stem +:+ "." +:+ ext) = Some (String.length stem + 0)) as Hr.
  { apply rfind_app. change ("." +:+ ext) with (String "." ext). simpl. by rewrite Hdot. }
  assert (∀ b, str_drop (String.length stem) (stem +:+ b) = b) as Hdrop.
  { intros b. clear. induction stem as [|c s IH]; [by destruct b|]. apply IH. }
  assert (∀ b, str_take (String.length stem) (stem +:+ b) = stem) as Htake.
  { intros b. clear. induction stem as [|c s IH]; simpl; [by destruct b|].
    change (String c (str_take (String.length s) (s +:+ b)) = String c s). by rewrite IH. }
  unfold with_suffix, suffix. simpl.
  rewrite decide_False by (by destruct stem). rewrite Hr, Nat.add_0_r.
  rewrite !length_app. simpl.
  destruct (decide (0 < String.length stem
                    < String.length stem + S (String.length ext) - 1)) as [_|?]; [|lia].
  rewrite Hdrop. rewrite decide_False by done. simpl.
  change ("" +:+ ext) with ext.
  replace (String.length stem + S (String.length ext) - S (String.length ext))
    with (String.length stem) by lia.
  by rewrite Htake.
Qed.

(** * Further properties of the task manager *)

(** ** Lookups in a changed sequence *)

Lemma snd_find_task_shift (o : option (nat * Task)) :
  snd <$> (prod_map S Datatypes.id <$> o) = snd <$> o.
Proof. by destruct o as [[? ?]|]. Qed.

Lemma find_task_delete_same ts task_id i t :
  NoDup (models.id <$> ts) → find_task ts task_id = Some (i, t) →
  find_task (delete i ts) task_id = None.
Proof.
  revert i. induction ts as [|a ts IH]; intros i Hnd H; simpl in *; [done|].
  apply NoDup_cons in Hnd as [Ha Hnd].
  destruct (decide (models.id a = task_id)) as [Heq|Hne].
  - injection H as <- <-. simpl. apply find_task_None. intros (u & Hu & Hid).
    apply Ha. rewrite Heq, <-Hid. apply list_elem_of_fmap. eauto.
  - destruct (find_task ts task_id) as [[k u]|] eqn:E; simpl in H; [|done].
    injection H as <- <-. simpl. rewrite decide_False by done.
    by rewrite (IH k Hnd eq_refl).
Qed.

Lemma find_task_delete_other ts task_id other i t :
  find_task ts task_id = Some (i, t) → other ≠ task_id →
  snd <$> find_task (delete i ts) other = snd <$> find_task ts other.
Proof.
  revert i. induction ts as [|a ts IH]; intros i H Hother; simpl in *; [done|].
  destruct (decide (models.id a = task_id)) as [Heq|Hne].
  - injection H as <- <-. simpl. rewrite decide_False by congruence.
    by rewrite snd_find_task_shift.
  - destruct (find_task ts task_id) as [[k u]|] eqn:E; simpl in H; [|done].
    injection H as <- <-. simpl. destruct (decide (models.id a = other)); [done|].
    rewrite !snd_find_task_shift. by apply IH.
Qed.

Lemma find_task_app_last ts t task_id :
  find_task (ts ++ [t]) task_id
  = match find_task ts task_id with
    | Some found => Some found
    | None => if decide (models.id t = task_id) then Some (length ts, t) else None
    end.
Proof.
  induction ts as [|a ts IH]; simpl.
  - by destruct (decide (models.id t = task_id)).
  - destruct (decide (models.id a = task_id)); [done|]. rewrite IH.
    destruct (find_task ts task_id) as [[k u]|]; [done|].
    by destruct (decide (models.id t = task_id)).
Qed.

Lemma find_task_insert_other ts task_id other i t t' :
  find_task ts task_id = Some (i, t) → models.id t' = models.id t → other ≠ task_id →
  find_task (<[i := t']> ts) other = find_task ts other.
Proof.
  revert i. induction ts as [|a ts IH]; intros i H Hid Hother; simpl in *; [done|].
  destruct (decide (models.id a = task_id)) as [Heq|Hne].
  - injection H as <- <-. simpl. rewrite Hid, !decide_False by congruence. done.
  - destruct (find_task ts task_id) as [[k u]|] eqn:E; simpl in H; [|done].
    injection H as <- <-. simpl. destruct (decide (models.id a = other)); [done|].
    by rewrite (IH k eq_refl Hid Hother).
Qed.

(** ** Counting completed tasks *)

Lemma completed_count_app ts1 ts2 :
  completed_count (ts1 ++ ts2) = (completed_count ts1 + completed_count ts2)%Z.
Proof. unfold completed_count. rewrite fmap_app, count_occ_app. lia. Qed.

Lemma completed_count_cons t ts :
  completed_count (t :: ts)
  = ((if models.completed t then 1 else 0) + completed_count ts)%Z.
Proof.
  unfold completed_count. simpl. destruct (models.completed t); simpl; unfold fmap; lia.
Qed.

Lemma completed_count_bounds ts : (0 ≤ completed_count ts ≤ Z.of_nat (length ts))%Z.
Proof.
  induction ts as [|t ts IH]; [done|]. rewrite completed_count_cons. simpl.
  destruct (models.completed t); lia.
Qed.

Lemma completed_count_insert ts i t t' :
  ts !! i = Some t →
  completed_count (<[i := t']> ts)
  = (completed_count ts - (if models.completed t then 1 else 0)
     + (if models.completed t' then 1 else 0))%Z.
Proof.
  intros Hi. rewrite insert_take_drop by (by eapply lookup_lt_Some).
  rewrite <-(take_drop_middle ts i t Hi) at 3.
  rewrite !completed_count_app, !completed_count_cons. lia.
Qed.

Lemma completed_count_delete ts i t :
  ts !! i = Some t →
  completed_count (delete i ts)
  = (completed_count ts - (if models.completed t then 1 else 0))%Z.
Proof.
  intros Hi. rewrite delete_take_drop.
  rewrite <-(take_drop_middle ts i t Hi) at 3.
  rewrite !completed_count_app, !completed_count_cons. lia.
Qed.

Lemma sum_of_ones (ts : list Task) :
  sum ((λ _, 1%Z) <$> filter (λ task, models.completed task = true) ts)
  = completed_count ts.
Proof.
  unfold sum.
  assert (∀ acc, foldl Z.add acc
             ((λ _, 1%Z) <$> filter (λ task, models.completed task = true) ts)
           = (acc + completed_count ts)%Z) as Hsum; [|by rewrite Hsum].
  induction ts as [|t ts IH]; intros acc; [unfold completed_count; simpl; lia|].
  rewrite filter_cons, completed_count_cons.
  destruct (decide (models.completed t = true)) as [Ht|Ht].
  - simpl. rewrite IH, Ht. lia.
  - rewrite IH. destruct (models.completed t); [done|lia].
Qed.

Lemma get_stats_value (w : world) :
  get_stats w
  = (Ok {| total := Z.of_nat (length (tasks (self w)));
           todo_manager.completed := completed_count (tasks (self w));
           pending := (Z.of_nat (length (tasks (self w)))
                       - completed_count (tasks (self w)))%Z |}, w).
Proof. unfold get_stats. run_M. by rewrite sum_of_ones. Qed.

Section manager_sessions.
Variable json_dumps : pyval → string.
Variable json_loads : string → option pyval.

(** ** Looking tasks up *)

(** X7: [get_task_by_id] changes nothing and returns the first task of the
    sequence that has the id, or [None] exactly when no task has it. *)
Theorem get_task_by_id_finds_first (task_id : Z) (w : world) :
  ∃ r, get_task_by_id task_id w = (Ok r, w)
    ∧ match r with
      | Some t =>
          ∃ i, tasks (self w) !! i = Some t ∧ id t = task_id
               ∧ ∀ j u, j < i → tasks (self w) !! j = Some u → id u ≠ task_id
      | None => ¬ present task_id (tasks (self w))
      end.
Proof.
  unfold get_task_by_id, gets.
  destruct (find_task (tasks (self w)) task_id) as [[i t]|] eqn:Hfind; simpl.
  - exists (Some t). split; [done|]. exists i. by apply find_task_Some.
  - exists None. split; [done|]. by apply find_task_None.
Qed.

(** X8: on an id of the sequence, [delete_task] returns [True] and removes
    the first task with that id, one position: the tasks before and after
    it keep their order and content, the sequence is one shorter, the
    counter and the handler are the same. *)
Theorem delete_task_removes_first (io : write_fault) (task_id : Z) (w : world)
    (Hpresent : present task_id (tasks (self w))) :
  ∃ w' i t,
    delete_task json_dumps io task_id w = (Ok true, w')
    ∧ tasks (self w) !! i = Some t ∧ id t = task_id
    ∧ (∀ j u, j < i → tasks (self w) !! j = Some u → id u ≠ task_id)
    ∧ tasks (self w') = take i (tasks (self w)) ++ drop (S i) (tasks (self w))
    ∧ length (tasks (self w)) = S (length (tasks (self w')))
    ∧ next_id (self w') = next_id (self w)
    ∧ storage (self w') = storage (self w).
Proof.
  destruct (find_task_present _ _ Hpresent) as (i & t & Hfind).
  destruct (find_task_Some _ _ _ _ Hfind) as (Hi & Hid & Hfirst).
  eexists _, i, t. split; [exact (delete_task_found _ _ _ _ _ _ Hfind)|]. simpl.
  repeat split; try done.
  - apply delete_take_drop.
  - rewrite length_delete by eauto. apply lookup_lt_Some in Hi. lia.
Qed.

(** X9: in a sequence without duplicate ids, a deleted task is gone: after
    [delete_task] the lookup of its id finds nothing, and the lookup of
    every other id finds what it found before. *)
Theorem delete_task_then_lookup (io : write_fault) (task_id : Z) (w : world)
    (Hnodup : NoDup (ids w)) (Hpresent : present task_id (tasks (self w))) :
  let w' := snd (delete_task json_dumps io task_id w) in
  fst (get_task_by_id task_id w') = Ok None
  ∧ ∀ other, other ≠ task_id →
      fst (get_task_by_id other w') = fst (get_task_by_id other w).
Proof.
  destruct (find_task_present _ _ Hpresent) as (i & t & Hfind).
  rewrite (delete_task_found _ _ _ _ _ _ Hfind). unfold get_task_by_id, gets. simpl.
  split.
  - by rewrite (find_task_delete_same _ _ _ _ Hnodup Hfind).
  - intros other Hother. by rewrite (find_task_delete_other _ _ _ _ _ Hfind Hother).
Qed.

(** X10: when no task has the counter value as its id, the task a
    successful [add_task] returns is the one the lookup of its id finds
    afterwards, and the lookup of every other id finds what it found
    before. *)
Theorem add_task_then_lookup (io : write_fault) (now : datetime)
    (title description : string) (w w' : world) (t : Task)
    (Hadded : add_task json_dumps io now title description w = (Ok t, w'))
    (Hfresh : ¬ present (next_id (self w)) (tasks (self w))) :
  fst (get_task_by_id (id t) w') = Ok (Some t)
  ∧ ∀ other, other ≠ id t →
      fst (get_task_by_id other w') = fst (get_task_by_id other w).
Proof.
  destruct (Task_init (next_id (self w)) title description false now) as [t0|e] eqn:E.
  - rewrite (add_task_accepted _ _ _ _ _ _ _ E) in Hadded. injection Hadded as -> <-.
    assert (id t = next_id (self w)) as Hid by (by rewrite (Task_init_Ok _ _ _ _ _ _ E)).
    unfold get_task_by_id, gets. simpl. split.
    + rewrite find_task_app_last, Hid. apply find_task_None in Hfresh. rewrite Hfresh.
      by rewrite decide_True.
    + intros other Hother. rewrite find_task_app_last.
      destruct (find_task (tasks (self w)) other) as [[k u]|]; [done|].
      by rewrite decide_False.
  - rewrite (add_task_rejected _ _ _ _ _ _ _ E) in Hadded. discriminate Hadded.
Qed.

(** X11: on an id of the sequence and with fields the constructor accepts,
    the lookup of the id after [update_task] finds the replacement: the new
    title and description where given, the old ones otherwise, and the old
    id, creation time and completed flag. The lookup of every other id
    finds what it found before. *)
Theorem update_task_then_lookup (io : write_fault) (task_id : Z)
    (title description : option string) (w : world) (t : Task)
    (Hfound : fst (get_task_by_id task_id w) = Ok (Some t))
    (Hok : acceptable (default (models.title t) title)
             (default (models.description t) description)) :
  let w' := snd (update_task json_dumps io task_id title description w) in
  fst (get_task_by_id task_id w')
  = Ok (Some {| models.id := id t;
                models.title := default (models.title t) title;
                models.description := default (models.description t) description;
                models.completed := models.completed t;
                models.created_at := created_at t |})
  ∧ ∀ other, other ≠ task_id →
      fst (get_task_by_id other w') = fst (get_task_by_id other w).
Proof.
  unfold get_task_by_id, gets in Hfound. simpl in Hfound.
  destruct (find_task (tasks (self w)) task_id) as [[i t0]|] eqn:Hfind; [|done].
  simpl in Hfound. injection Hfound as ->.
  rewrite (update_task_accepted json_dumps io task_id title description w i t _ Hfind
             (Task_init_accepts _ _ _ _ _ Hok)).
  unfold get_task_by_id, gets. simpl. split.
  - by rewrite (find_task_insert _ _ _ _ _ Hfind).
  - intros other Hother. by rewrite (find_task_insert_other _ _ _ _ _ _ Hfind).
Qed.

(** ** Invariants of a session *)

Lemma exec_keeps_well_formed c w :
  well_formed w → well_formed (snd (exec json_dumps c w)).
Proof.
  intros [Hnd Hlt]. unfold well_formed.
  destruct (exec_id_step json_dumps c w) as [_ Hids Hn|i _ Hids Hn|t _ Hid Hts Hn].
  - by rewrite Hids, Hn.
  - rewrite Hids, Hn. split.
    + by apply (sublist_NoDup _ (ids w)); [|apply sublist_delete].
    + intros j Hj. apply Hlt. by apply (sublist_subseteq _ _ (sublist_delete _ i)).
  - unfold ids in *. rewrite Hts, Hn, fmap_app. simpl. split.
    + apply NoDup_app. split; [done|]. split; [|apply NoDup_singleton].
      intros j Hj Hj'. apply list_elem_of_singleton in Hj'. specialize (Hlt j Hj). lia.
    + intros j Hj. apply elem_of_app in Hj as [Hj|Hj].
      * specialize (Hlt j Hj). lia.
      * apply list_elem_of_singleton in Hj. lia.
Qed.

(** X12: a manager whose ids are pairwise different and below the counter
    stays so through every session of calls: no call creates a second task
    with an id in use, and none lowers the counter to an id in use. *)
Theorem session_keeps_well_formed (cs : list call) (w : world)
    (Hwf : well_formed w) :
  well_formed (snd (run json_dumps cs w)).
Proof.
  revert w Hwf. induction cs as [|c cs IH]; intros w Hwf; [done|]. simpl.
  pose proof (exec_keeps_well_formed c w Hwf) as Hstep.
  destruct (exec json_dumps c w) as [r w1]. simpl in Hstep.
  specialize (IH w1 Hstep).
  destruct r as [[t|]|]; [|done..].
  by destruct (run json_dumps cs w1).
Qed.

End manager_sessions.

Section manager_persistence.
Variable json_dumps : pyval → string.
Variable json_loads : string → option pyval.

(** ** Memory and disk *)

(** X14: what a call returns and what it leaves in the manager do not
    depend on the fate of the save: the result of [_save_to_storage] is
    dropped, so a call whose save fails returns the same value and keeps
    the same tasks and counter in memory as one whose save succeeds. *)
Theorem outcome_ignores_persistence (io io' : write_fault) (w : world) :
  (∀ now title description,
     fst (add_task json_dumps io now title description w)
     = fst (add_task json_dumps io' now title description w)
     ∧ self (snd (add_task json_dumps io now title description w))
       = self (snd (add_task json_dumps io' now title description w)))
  ∧ (∀ task_id title description,
     fst (update_task json_dumps io task_id title description w)
     = fst (update_task json_dumps io' task_id title description w)
     ∧ self (snd (update_task json_dumps io task_id title description w))
       = self (snd (update_task json_dumps io' task_id title description w)))
  ∧ (∀ task_id,
     fst (delete_task json_dumps io task_id w) = fst (delete_task json_dumps io' task_id w)
     ∧ self (snd (delete_task json_dumps io task_id w))
       = self (snd (delete_task json_dumps io' task_id w)))
  ∧ (∀ task_id,
     fst (toggle_complete json_dumps io task_id w)
     = fst (toggle_complete json_dumps io' task_id w)
     ∧ self (snd (toggle_complete json_dumps io task_id w))
       = self (snd (toggle_complete json_dumps io' task_id w))).
Proof.
  split; [|split; [|split]].
  - intros now title description.
    destruct (Task_init (next_id (self w)) title description false now) as [t|e] eqn:E.
    + by rewrite !(add_task_accepted _ _ _ _ _ _ _ E).
    + by rewrite !(add_task_rejected _ _ _ _ _ _ _ E).
  - intros task_id title description.
    destruct (find_task (tasks (self w)) task_id) as [[i t]|] eqn:Hfind.
    + destruct (Task_init (id t) (default (models.title t) title)
                  (default (models.description t) description)
                  (models.completed t) (created_at t)) as [t'|e] eqn:E.
      * by rewrite !(update_task_accepted _ _ _ _ _ _ _ _ _ Hfind E).
      * by rewrite !(update_task_rejected _ _ _ _ _ _ _ _ _ Hfind E).
    + apply find_task_None in Hfind. by rewrite !update_task_absent.
  - intros task_id.
    destruct (find_task (tasks (self w)) task_id) as [[i t]|] eqn:Hfind.
    + by rewrite !(delete_task_found _ _ _ _ _ _ Hfind).
    + apply find_task_None in Hfind. by rewrite !delete_task_absent.
  - intros task_id.
    destruct (find_task (tasks (self w)) task_id) as [[i t]|] eqn:Hfind.
    + by rewrite !(toggle_complete_found _ _ _ _ _ _ Hfind).
    + apply find_task_None in Hfind. by rewrite !toggle_complete_absent.
Qed.

(** X16: after [_save_to_storage] returned [True], a manager built on the
    same path starts with the tasks and the counter that were saved, when
    the decoder inverts the encoder on the saved document and every saved
    task is rebuilt from its record: a restart loses nothing. *)
Theorem restart_after_save (io : write_fault) (w w' : world)
    (Hsaved : _save_to_storage json_dumps io w = (Ok true, w'))
    (Hjson : json_loads (document json_dumps (tasks (self w)) (next_id (self w)))
             = Some (PyDict [("tasks", PyList (to_dict <$> tasks (self w)));
                             ("next_id", PyInt (next_id (self w)))]))
    (Hrecords : comprehension from_dict (to_dict <$> tasks (self w)) = Ok (tasks (self w))) :
  self w' = self w
  ∧ init json_loads (storage.filepath (storage (self w))) storage.ReadOk (disk w')
    = Ok (Some (self w)).
Proof.
  unfold _save_to_storage in Hsaved.
  destruct (storage.save json_dumps (storage (self w)) io (tasks (self w))
              (next_id (self w)) (disk w)) as [r d'] eqn:Hsave.
  injection Hsaved as -> <-. simpl. split; [done|].
  unfold init.
  assert ({| storage.filepath := storage.filepath (storage (self w)) |} = storage (self w))
    as -> by (by destruct (storage (self w))).
  rewrite (load_document json_loads (storage (self w)) d' _ _ (to_dict <$> tasks (self w))
             (save_true_target _ _ _ _ _ _ _ Hsave) Hjson) by done.
  rewrite Hrecords. simpl. by destruct (self w).
Qed.

(** ** Statistics through the calls *)

(** X17: in every state the statistics are consistent: [completed] lies
    between 0 and [total], [pending] is not negative, and [completed] and
    [pending] add up to [total]. *)
Theorem get_stats_bounds (w : world) :
  ∃ st, get_stats w = (Ok st, w)
    ∧ (0 ≤ todo_manager.completed st ≤ total st)%Z
    ∧ (0 ≤ pending st)%Z
    ∧ total st = (todo_manager.completed st + pending st)%Z.
Proof.
  rewrite get_stats_value. eexists. split; [done|]. simpl.
  pose proof (completed_count_bounds (tasks (self w))). lia.
Qed.

(** X18: a successful [add_task] raises [total] and [pending] by one and
    leaves [completed] as it was: the new task starts pending. *)
Theorem add_task_stats (io : write_fault) (now : datetime)
    (title description : string) (w w' : world) (t : Task)
    (Hadded : add_task json_dumps io now title description w = (Ok t, w')) :
  ∃ st st', get_stats w = (Ok st, w) ∧ get_stats w' = (Ok st', w')
    ∧ total st' = (total st + 1)%Z
    ∧ todo_manager.completed st' = todo_manager.completed st
    ∧ pending st' = (pending st + 1)%Z.
Proof.
  destruct (Task_init (next_id (self w)) title description false now) as [t0|e] eqn:E.
  - rewrite (add_task_accepted _ _ _ _ _ _ _ E) in Hadded. injection Hadded as -> <-.
    rewrite !get_stats_value. eexists _, _. split; [done|]. split; [done|]. simpl.
    rewrite List.length_app, completed_count_app, completed_count_cons.
    rewrite (Task_init_Ok _ _ _ _ _ _ E). simpl.
    change (completed_count []) with 0%Z. lia.
  - rewrite (add_task_rejected _ _ _ _ _ _ _ E) in Hadded. discriminate Hadded.
Qed.

(** X19: [toggle_complete] on an id of the sequence keeps [total] and
    moves one task between [completed] and [pending]: from pending to
    completed when the task found was not completed, back otherwise. *)
Theorem toggle_complete_stats (io : write_fault) (task_id : Z) (w : world) (t : Task)
    (Hfound : fst (get_task_by_id task_id w) = Ok (Some t)) :
  let w' := snd (toggle_complete json_dumps io task_id w) in
  let change := if models.completed t then (-1)%Z else 1%Z in
  ∃ st st', get_stats w = (Ok st, w) ∧ get_stats w' = (Ok st', w')
    ∧ total st' = total st
    ∧ todo_manager.completed st' = (todo_manager.completed st + change)%Z
    ∧ pending st' = (pending st - change)%Z.
Proof.
  unfold get_task_by_id, gets in Hfound. simpl in Hfound.
  destruct (find_task (tasks (self w)) task_id) as [[i t0]|] eqn:Hfind; [|done].
  simpl in Hfound. injection Hfound as ->.
  destruct (find_task_Some _ _ _ _ Hfind) as (Hi & _).
  rewrite (toggle_complete_found _ _ _ _ _ _ Hfind). simpl.
  rewrite !get_stats_value. eexists _, _. split; [done|]. split; [done|]. simpl.
  rewrite length_insert, (completed_count_insert _ _ _ _ Hi). simpl.
  destruct (models.completed t); simpl; lia.
Qed.

(** X20: [delete_task] on an id of the sequence lowers [total] by one, and
    with it [completed] when the task found was completed and [pending]
    when it was not. *)
Theorem delete_task_stats (io : write_fault) (task_id : Z) (w : world) (t : Task)
    (Hfound : fst (get_task_by_id task_id w) = Ok (Some t)) :
  let w' := snd (delete_task json_dumps io task_id w) in
  ∃ st st', get_stats w = (Ok st, w) ∧ get_stats w' = (Ok st', w')
    ∧ total st' = (total st - 1)%Z
    ∧ todo_manager.completed st'
      = (todo_manager.completed st - if models.completed t then 1 else 0)%Z
    ∧ pending st' = (pending st - if models.completed t then 0 else 1)%Z.
Proof.
  unfold get_task_by_id, gets in Hfound. simpl in Hfound.
  destruct (find_task (tasks (self w)) task_id) as [[i t0]|] eqn:Hfind; [|done].
  simpl in Hfound. injection Hfound as ->.
  destruct (find_task_Some _ _ _ _ Hfind) as (Hi & _).
  rewrite (delete_task_found _ _ _ _ _ _ Hfind). simpl.
  rewrite !get_stats_value. eexists _, _. split; [done|]. split; [done|]. simpl.
  rewrite length_delete by eauto. rewrite (completed_count_delete _ _ _ Hi).
  apply lookup_lt_Some in Hi. destruct (models.completed t); lia.
Qed.

End manager_persistence.

Section damaged_file.
Variable json_dumps : pyval → string.
Variable json_loads : string → option pyval.

(** X21: over a file that is not a JSON document, the manager starts
    empty with counter 1, and the first task it adds gets id 1 and is saved
    over that file; the undecodable content is then under the backup path,
    its only copy. *)
Theorem damaged_file_goes_to_backup (storage_path : Path) (io : read_fault)
    (d : fs) (content : string)
    (Hfile : d !! parts storage_path = Some content)
    (Hjson : json_loads content = None)
    (Hname : name storage_path ≠ "") :
  let sto := {| storage.filepath := storage_path |} in
  init json_loads storage_path io d = Ok (Some (fresh sto))
  ∧ ∀ now title description, acceptable title description →
      ∃ t w' bp,
        add_task json_dumps NoFault now title description {| disk := d; self := fresh sto |}
        = (Ok t, w')
        ∧ id t = 1%Z ∧ tasks (self w') = [t] ∧ next_id (self w') = 2%Z
        ∧ with_suffix storage_path ".json.backup" = Ok bp
        ∧ disk w' !! parts bp = Some content
        ∧ disk w' !! parts storage_path = Some (document json_dumps [t] 2).
Proof.
  intros sto. split.
  - unfold init, storage.load, storage.path_exists, storage.read_json,
      storage.import_models. run_M. rewrite Hfile. simpl.
    destruct io; simpl; by rewrite ?Hfile, ?Hjson.
  - intros now title description Hok.
    destruct (with_suffix_nonempty storage_path ".json.backup" Hname) as [bp Hbp].
    pose proof (with_suffix_backup_distinct _ _ Hbp) as Hne.
    eexists _, _, bp. split.
    { apply add_task_accepted. by apply Task_init_accepts. }
    simpl. repeat split; try done.
    + rewrite save_cases. simpl. rewrite Hfile, Hbp. simpl. by simplify_map_eq.
    + rewrite save_cases. simpl. rewrite Hfile, Hbp. simpl. by simplify_map_eq.
Qed.

End damaged_file.

(** * The further properties on concrete sessions *)

Import more_examples.

Lemma two_tasks_has_2 : present 2 (tasks (self two_tasks)).
Proof. exists walk_dog. split; [right; left|done]. Qed.

Lemma two_tasks_ids_differ : NoDup (ids two_tasks).
Proof.
  apply NoDup_cons. split; [|apply NoDup_singleton].
  intros H. by apply list_elem_of_singleton in H.
Qed.

Lemma two_tasks_well_formed : well_formed two_tasks.
Proof.
  split; [exact two_tasks_ids_differ|]. intros i Hi.
  apply elem_of_cons in Hi as [->|Hi]; [done|].
  apply list_elem_of_singleton in Hi. by subst.
Qed.

Lemma backup_of_data_file (bp : Path) :
  with_suffix data_file ".json.backup" = Ok bp → bp = backup_file.
Proof. intros H. vm_compute in H. by injection H as <-. Qed.

Lemma save_failure_keeps_target_witness :
  storage.save encode handler OpenFails [buy_milk] 2 (disk one_task)
  = (Ok false, <[parts backup_file := "old"]> (disk one_task))
  ∧ <[parts backup_file := "old"]> (disk one_task) !! parts data_file
    = disk one_task !! parts data_file.
Proof.
  assert (storage.save encode handler OpenFails [buy_milk] 2 (disk one_task)
          = (Ok false, <[parts backup_file := "old"]> (disk one_task))) as Hfalse.
  { rewrite save_cases. reflexivity. }
  split; [exact Hfalse|].
  apply (save_failure_keeps_target encode handler OpenFails [buy_milk] 2 _ _ Hfalse).
  discriminate.
Defined.

Lemma load_after_save_witness :
  ∃ d', storage.save encode handler NoFault [buy_milk; walk_dog] 3 ∅ = (Ok true, d')
        ∧ storage.load decode_more handler storage.ReadOk d'
          = (Ok {| storage.tasks := [buy_milk; walk_dog]; storage.next_id := PyInt 3 |}, d').
Proof.
  assert (storage.save encode handler NoFault [buy_milk; walk_dog] 3 ∅
          = (Ok true, {[ parts data_file := "next_id=0003" ]})) as Hsaved.
  { rewrite save_cases. reflexivity. }
  eexists. split; [exact Hsaved|].
  apply (load_after_save encode decode_more handler NoFault [buy_milk; walk_dog] 3 ∅ _ Hsaved).
  - reflexivity.
  - vm_compute. reflexivity.
Defined.

Lemma load_drops_all_on_bad_record_witness :
  storage.load decode_more handler storage.ReadOk {[ parts data_file := "damaged" ]}
  = (Ok storage.empty_state, {[ parts data_file := "damaged" ]}).
Proof.
  apply (load_drops_all_on_bad_record decode_more handler storage.ReadOk
           {[ parts data_file := "damaged" ]} "damaged"
           [("tasks", PyList [to_dict buy_milk; PyDict [("title", PyStr "Walk the dog")]]);
            ("next_id", PyInt 3)]
           [to_dict buy_milk; PyDict [("title", PyStr "Walk the dog")]]).
  - reflexivity.
  - reflexivity.
  - reflexivity.
  - apply Exists_cons_tl, Exists_cons_hd. left. reflexivity.
Defined.

Lemma backup_name_replaces_extension_witness :
  with_suffix {| parent := ["data"]; name := "tasks.txt" |} ".json.backup"
  = Ok {| parent := ["data"]; name := "tasks.json.backup" |}.
Proof.
  apply (backup_name_replaces_extension ["data"] "tasks" "txt"); [done|done|reflexivity].
Defined.

Lemma delete_task_removes_first_witness :
  present 2 (tasks (self two_tasks))
  ∧ ∃ w', delete_task encode NoFault 2 two_tasks = (Ok true, w')
          ∧ length (tasks (self w')) = 1 ∧ next_id (self w') = 3%Z.
Proof.
  split; [exact two_tasks_has_2|].
  destruct (delete_task_removes_first encode NoFault 2 two_tasks two_tasks_has_2)
    as (w' & i & t & Hdel & _ & _ & _ & _ & Hlen & Hn & _).
  exists w'. split; [exact Hdel|]. split; [|exact Hn].
  simpl in Hlen. by injection Hlen.
Defined.

Lemma delete_task_then_lookup_witness :
  fst (get_task_by_id 2 (snd (delete_task encode NoFault 2 two_tasks))) = Ok None
  ∧ fst (get_task_by_id 1 (snd (delete_task encode NoFault 2 two_tasks)))
    = fst (get_task_by_id 1 two_tasks).
Proof.
  destruct (delete_task_then_lookup encode NoFault 2 two_tasks two_tasks_ids_differ
              two_tasks_has_2) as [Hgone Hothers].
  split; [exact Hgone|]. apply Hothers. discriminate.
Defined.

Lemma add_task_then_lookup_witness :
  ∃ t w', add_task encode NoFault noon "Feed the cat" "" two_tasks = (Ok t, w')
          ∧ fst (get_task_by_id 3 w') = Ok (Some t).
Proof.
  assert (∃ t w', add_task encode NoFault noon "Feed the cat" "" two_tasks = (Ok t, w')
                  ∧ id t = 3%Z) as (t & w' & Hadded & Hid).
  { eexists _, _. split; [apply add_task_accepted; reflexivity|reflexivity]. }
  exists t, w'. split; [exact Hadded|]. rewrite <-Hid.
  apply (add_task_then_lookup encode NoFault noon "Feed the cat" "" two_tasks w' t Hadded).
  intros (u & Hu & Hu'). simpl in Hu.
  apply elem_of_cons in Hu as [->|Hu]; [discriminate Hu'|].
  apply list_elem_of_singleton in Hu. subst. discriminate Hu'.
Defined.

Lemma update_task_then_lookup_witness :
  fst (get_task_by_id 2
         (snd (update_task encode NoFault 2 None (Some "twice a day") two_tasks)))
  = Ok (Some {| models.id := 2; models.title := "Walk the dog";
                models.description := "twice a day";
                models.completed := true; models.created_at := noon |}).
Proof.
  apply (update_task_then_lookup encode NoFault 2 None (Some "twice a day") two_tasks
           walk_dog eq_refl).
  repeat split; simpl; (done || lia).
Defined.

Lemma session_keeps_well_formed_witness :
  well_formed two_tasks ∧ well_formed (snd (run encode session two_tasks)).
Proof.
  split; [exact two_tasks_well_formed|].
  exact (session_keeps_well_formed encode session two_tasks two_tasks_well_formed).
Defined.

Lemma restart_after_save_witness :
  ∃ w', _save_to_storage encode NoFault two_tasks = (Ok true, w')
        ∧ init decode_more data_file storage.ReadOk (disk w') = Ok (Some (self two_tasks)).
Proof.
  assert (_save_to_storage encode NoFault two_tasks
          = (Ok true, {| disk := {[ parts data_file := "next_id=0003" ]};
                         self := self two_tasks |})) as Hsaved.
  { unfold _save_to_storage. rewrite save_cases. reflexivity. }
  eexists. split; [exact Hsaved|].
  apply (restart_after_save encode decode_more NoFault two_tasks _ Hsaved).
  - reflexivity.
  - vm_compute. reflexivity.
Defined.

Lemma add_task_stats_witness :
  ∃ t w' st', add_task encode NoFault noon "Feed the cat" "" two_tasks = (Ok t, w')
    ∧ get_stats w' = (Ok st', w')
    ∧ total st' = 3%Z ∧ todo_manager.completed st' = 1%Z ∧ pending st' = 2%Z.
Proof.
  assert (∃ t w', add_task encode NoFault noon "Feed the cat" "" two_tasks = (Ok t, w'))
    as (t & w' & Hadded).
  { eexists _, _. apply add_task_accepted. reflexivity. }
  destruct (add_task_stats encode NoFault noon "Feed the cat" "" two_tasks w' t Hadded)
    as (st & st' & Hst & Hst' & Htotal & Hcompleted & Hpending).
  rewrite get_stats_value in Hst. injection Hst as <-.
  exists t, w', st'. split; [exact Hadded|]. split; [exact Hst'|].
  split; [exact Htotal|]. split; [exact Hcompleted|exact Hpending].
Defined.

Lemma toggle_complete_stats_witness :
  ∃ st', get_stats (snd (toggle_complete encode NoFault 2 two_tasks))
         = (Ok st', snd (toggle_complete encode NoFault 2 two_tasks))
    ∧ total st' = 2%Z ∧ todo_manager.completed st' = 0%Z ∧ pending st' = 2%Z.
Proof.
  destruct (toggle_complete_stats encode NoFault 2 two_tasks walk_dog eq_refl)
    as (st & st' & Hst & Hst' & Htotal & Hcompleted & Hpending).
  rewrite get_stats_value in Hst. injection Hst as <-.
  exists st'. split; [exact Hst'|].
  split; [exact Htotal|]. split; [exact Hcompleted|exact Hpending].
Defined.

Lemma delete_task_stats_witness :
  ∃ st', get_stats (snd (delete_task encode NoFault 2 two_tasks))
         = (Ok st', snd (delete_task encode NoFault 2 two_tasks))
    ∧ total st' = 1%Z ∧ todo_manager.completed st' = 0%Z ∧ pending st' = 1%Z.
Proof.
  destruct (delete_task_stats encode NoFault 2 two_tasks walk_dog eq_refl)
    as (st & st' & Hst & Hst' & Htotal & Hcompleted & Hpending).
  rewrite get_stats_value in Hst. injection Hst as <-.
  exists st'. split; [exact Hst'|].
  split; [exact Htotal|]. split; [exact Hcompleted|exact Hpending].
Defined.

Lemma damaged_file_goes_to_backup_witness :
  let d : fs := {[ parts data_file := "garbage" ]} in
  init decode data_file storage.ReadOk d = Ok (Some (fresh handler))
  ∧ ∃ t w', add_task encode NoFault noon "Buy milk" "" {| disk := d; self := fresh handler |}
            = (Ok t, w')
            ∧ disk w' !! parts backup_file = Some "garbage"
            ∧ disk w' !! parts data_file = Some "next_id=0002".
Proof.
  intros d.
  destruct (damaged_file_goes_to_backup encode decode data_file storage.ReadOk d "garbage")
    as [Hinit Hadd]; [reflexivity|reflexivity|discriminate|].
  split; [exact Hinit|].
  destruct (Hadd noon "Buy milk" "") as (t & w' & bp & Hadded & _ & _ & _ & Hbp & Hold & Hnew).
  { repeat split; simpl; (done || lia). }
  rewrite (backup_of_data_file bp Hbp) in Hold.
  exists t, w'. split; [exact Hadded|]. split; [exact Hold|exact Hnew].
Defined.

(** * The handler that adds a task *)

(** ** Stripping twice *)

Lemma append_assoc (a b c : string) : (a +:+ b) +:+ c = a +:+ (b +:+ c).
Proof.
  induction a as [|x a IH]; [done|].
  change (String x ((a +:+ b) +:+ c) = String x (a +:+ (b +:+ c))). by rewrite IH.
Qed.

Lemma rev_app_append (s acc : string) : String.rev_app s acc = String.rev s +:+ acc.
Proof.
  unfold String.rev. revert acc. induction s as [|c s IH]; intros acc; [done|].
  simpl. rewrite (IH (String c acc)), (IH (String c "")), append_assoc. done.
Qed.

Lemma rev_cons (c : ascii) (s : string) : String.rev (String c s) = String.rev s +:+ String c "".
Proof. unfold String.rev at 1. simpl. apply rev_app_append. Qed.

Lemma rev_append (a b : string) : String.rev (a +:+ b) = String.rev b +:+ String.rev a.
Proof.
  induction a as [|x a IH]; [by rewrite append_empty_r|].
  change (String x a +:+ b) with (String x (a +:+ b)).
  by rewrite !rev_cons, IH, append_assoc.
Qed.

Lemma rev_involutive (s : string) : String.rev (String.rev s) = s.
Proof.
  induction s as [|c s IH]; [done|]. rewrite rev_cons, rev_append, IH. done.
Qed.

Lemma lstrip_head (s : string) :
  lstrip s = "" ∨ ∃ c v, lstrip s = String c v ∧ isspace c = false.
Proof.
  induction s as [|c s IH]; [by left|]. simpl.
  destruct (isspace c) eqn:Hc; [done|]. right. eauto.
Qed.

Lemma lstrip_idempotent (s : string) : lstrip (lstrip s) = lstrip s.
Proof.
  destruct (lstrip_head s) as [->|(c & v & -> & Hc)]; [done|]. simpl. by rewrite Hc.
Qed.

Lemma rstrip_idempotent (s : string) : rstrip (rstrip s) = rstrip s.
Proof. unfold rstrip. by rewrite rev_involutive, lstrip_idempotent. Qed.

Lemma lstrip_before_nonspace (x : string) (c : ascii) (y : string) :
  isspace c = false → lstrip (x +:+ String c y) = lstrip x +:+ String c y.
Proof.
  intros Hc. induction x as [|a x IH]; simpl; [by rewrite Hc|].
  by destruct (isspace a).
Qed.

Lemma rstrip_cons_nonspace (c : ascii) (v : string) :
  isspace c = false → rstrip (String c v) = String c (rstrip v).
Proof.
  intros Hc. unfold rstrip.
  rewrite rev_cons, lstrip_before_nonspace, rev_append by done. done.
Qed.

(** [s.strip().strip()] is [s.strip()]. *)
Lemma strip_idempotent (s : string) : strip (strip s) = strip s.
Proof.
  unfold strip. destruct (lstrip_head s) as [->|(c & v & -> & Hc)]; [done|].
  rewrite rstrip_cons_nonspace by done. simpl. rewrite Hc.
  by rewrite rstrip_cons_nonspace, rstrip_idempotent.
Qed.

(** ** What the handler passes on *)

Import main.


(** X22: the third check of the title, for a title of whitespace only, can
    never fail, because the line was stripped before the first check: the
    loop that asks for the title never shows its message, whatever is
    typed. *)
Theorem blank_title_check_never_fires (lines : list string) (shown : list event) :
  ∃ added, (ask_title lines shown).2 = shown ++ added
           ∧ show_error blank_title ∉ added.
Proof.
  revert shown. induction lines as [|line lines IH]; intros shown; simpl.
  - eexists. split; [done|]. intros H. by apply list_elem_of_singleton in H.
  - destruct (decide (lower (strip line) = "cancel")).
    { eexists [_; _]. split; [by rewrite <-app_assoc|].
      intros H. apply elem_of_cons in H as [H|H]; [done|].
      by apply list_elem_of_singleton in H. }
    assert (∀ message, message ≠ blank_title →
              ∃ added,
                (ask_title lines ((shown ++ [Prompt title_prompt]) ++ [show_error message])).2
                = shown ++ added ∧ show_error blank_title ∉ added) as Hagain.
    { intros message Hmessage.
      destruct (IH ((shown ++ [Prompt title_prompt]) ++ [show_error message]))
        as (added & -> & Hadded).
      exists ([Prompt title_prompt; show_error message] ++ added).
      split; [by rewrite <-!app_assoc|].
      intros H. apply elem_of_app in H as [H|H]; [|done].
      apply elem_of_cons in H as [H|H]; [done|].
      apply list_elem_of_singleton in H. by injection H. }
    destruct (decide (strip line = "")); [by apply Hagain|].
    destruct (decide (200 < String.length (strip line))); [by apply Hagain|].
    destruct (decide (strip (strip line) = "")) as [Hblank|].
    { by rewrite strip_idempotent in Hblank. }
    eexists. split; [done|]. intros H. by apply list_elem_of_singleton in H.
Qed.

Section handler_of_add.
Variable json_dumps : pyval → string.
Variable str_exception : exception → string.


End handler_of_add.
